(** * Contract-driven API test generation and execution (src/main.py)

    A shallow embedding of the test-generation and execution engine of
    [main.py]: example synthesis during schema extraction, default-body
    synthesis, per-field value variations, the single-field and
    combination passes of the test builder, the merge of advisory
    scenarios, the executor and the report aggregator.

    Python data is embedded as it is handled by the code:
    - JSON-like objects are the inductive [value]; a [dict] that is used
      as a map is a [gmap string value].  JSON floating-point numbers are
      not part of [value].
    - dictionaries that the code iterates with [.items()] (the required
      and optional buckets, the schema properties) are visited in the order
      of [map_to_list], which need not be the order of insertion.
    - a string is the sequence of the bytes of its UTF-8 encoding;
      [lower] and [repr] are those of Python on ASCII text.
    - exceptions are values of [exn]; a computation that may raise returns
      [res A]; code that also consumes randomness or talks to the network
      lives in the state-and-error monad [st S A].
    - the random generator is a list of draws; Faker, [json.loads],
      [str()], the HTTP transport and the clock are parameters. *)

From Stdlib Require Import ZArith List Ascii String Lia.
From stdpp Require Import gmap strings list fin_maps pretty.

Open Scope string_scope.
Open Scope list_scope.
Open Scope nat_scope.

(** ** Python values and exceptions *)

#[local] Unset Elimination Schemes.
Inductive value : Type :=
  | VNone
  | VBool (b : bool)
  | VInt (z : Z)
  | VStr (s : string)
  | VList (l : list value)
  | VDict (d : gmap string value).
#[local] Set Elimination Schemes.

Inductive exn_kind : Type :=
  | KeyError
  | IndexError
  | TypeError
  | AttributeError
  | ValueError
  | JSONDecodeError
  | RequestException.

(** An exception with the text of [str(e)]. *)
Record exn : Type := Raise { exn_type : exn_kind; exn_msg : string }.

Definition res (A : Type) : Type := exn + A.

Definition res_bind {A B : Type} (m : res A) (k : A -> res B) : res B :=
  match m with
  | inl e => inl e
  | inr a => k a
  end.

(** State and error: the state reached when an exception is raised is kept. *)
Definition st (S A : Type) : Type := S -> res A * S.

Definition st_ret {S A : Type} (a : A) : st S A := fun s => (inr a, s).

Definition st_bind {S A B : Type} (m : st S A) (k : A -> st S B) : st S B :=
  fun s =>
    match m s with
    | (inl e, s') => (inl e, s')
    | (inr a, s') => k a s'
    end.

Definition st_lift {S A : Type} (m : res A) : st S A := fun s => (m, s).

Declare Scope res_scope.
Delimit Scope res_scope with res.
Declare Scope st_scope.
Delimit Scope st_scope with st.

Notation "'let*' x := m 'in' k" := (res_bind m (fun x => k))
  (at level 10, x pattern, m at level 100, k at level 200) : res_scope.
Notation "'let*' x := m 'in' k" := (st_bind m (fun x => k))
  (at level 10, x pattern, m at level 100, k at level 200) : st_scope.

(** [for x in xs: acc = body(acc, x)] with exceptions. *)
Fixpoint res_fold {A B : Type} (body : B -> A -> res B) (acc : B) (xs : list A) : res B :=
  match xs with
  | [] => inr acc
  | x :: xs' => res_bind (body acc x) (fun acc' => res_fold body acc' xs')
  end.

Fixpoint st_fold {S A B : Type} (body : B -> A -> st S B) (acc : B) (xs : list A) : st S B :=
  match xs with
  | [] => st_ret acc
  | x :: xs' => st_bind (body acc x) (fun acc' => st_fold body acc' xs')
  end.

(** ** Strings *)

(** [s.isascii()]: every character of [s] is below 128. *)
Fixpoint isascii (s : string) : bool :=
  match s with
  | EmptyString => true
  | String c s' => (N_of_ascii c <? 128)%N && isascii s'
  end.

(** [str.lower()].  A string is the sequence of the bytes of its UTF-8
    encoding; the letters A to Z are lowered and every other byte is kept.
    On a string for which [isascii] holds this is the text Python returns;
    a letter outside ASCII is left in its case. *)
Definition lower_ascii (c : ascii) : ascii :=
  let n := N_of_ascii c in
  if ((65 <=? n) && (n <=? 90))%N then ascii_of_N (n + 32) else c.

Fixpoint lower (s : string) : string :=
  match s with
  | EmptyString => EmptyString
  | String c s' => String (lower_ascii c) (lower s')
  end.

(** [needle in hay] for two strings. *)
Fixpoint is_substring (needle hay : string) : bool :=
  String.prefix needle hay ||
  match hay with
  | EmptyString => false
  | String _ hay' => is_substring needle hay'
  end.

(** The one-character string holding a double quote. *)
Definition dquote : string := String (ascii_of_nat 34) EmptyString.

Definition apostrophe : ascii := ascii_of_nat 39.
Definition double_quote : ascii := ascii_of_nat 34.
Definition backslash : ascii := ascii_of_nat 92.

(** [c in s] for a character [c]. *)
Fixpoint has_char (c : ascii) (s : string) : bool :=
  match s with
  | EmptyString => false
  | String c' s' => bool_decide (c' = c) || has_char c s'
  end.

(** One of [0123456789abcdef]. *)
Definition hex_digit (n : N) : ascii :=
  ascii_of_N (if (n <? 10)%N then 48 + n else 87 + n).

(** What [repr] writes for one character: the quote in use and the
    backslash are escaped; tab, newline and carriage return have their
    letters; any other control character is written in hexadecimal. *)
Definition repr_char (quote c : ascii) : string :=
  let n := N_of_ascii c in
  if bool_decide (c = quote) || bool_decide (c = backslash) then
    String backslash (String c EmptyString)
  else if (n =? 9)%N then String backslash "t"
  else if (n =? 10)%N then String backslash "n"
  else if (n =? 13)%N then String backslash "r"
  else if (n <? 32)%N || (n =? 127)%N then
    String backslash
      (String "x"%char
         (String (hex_digit (n / 16)) (String (hex_digit (n mod 16)) EmptyString)))
  else String c EmptyString.

Fixpoint repr_chars (quote : ascii) (s : string) : string :=
  match s with
  | EmptyString => EmptyString
  | String c s' => repr_char quote c +:+ repr_chars quote s'
  end.

(** [repr(s)] for a string, which is also [str(KeyError(s))].  The text
    stands between apostrophes, or between double quotes when it holds an
    apostrophe and no double quote.  On a string for which [isascii] holds
    this is the text Python returns; a byte above 127 is copied, as Python
    copies a printable character. *)
Definition repr (s : string) : string :=
  let quote := if has_char apostrophe s && negb (has_char double_quote s)
               then double_quote else apostrophe in
  String quote (repr_chars quote s +:+ String quote EmptyString).

(** [s * n] *)
Fixpoint repeat_string (s : string) (n : nat) : string :=
  match n with
  | O => ""
  | S n' => s +:+ repeat_string s n'
  end.

(** [sep.join(parts)] *)
Definition join (sep : string) (parts : list string) : string :=
  String.concat sep parts.

Fixpoint chars (s : string) : list string :=
  match s with
  | EmptyString => []
  | String c s' => String c EmptyString :: chars s'
  end.

(** ** Operators on values *)

Definition type_name (v : value) : string :=
  match v with
  | VNone => "NoneType"
  | VBool _ => "bool"
  | VInt _ => "int"
  | VStr _ => "str"
  | VList _ => "list"
  | VDict _ => "dict"
  end.

(** [v == s] for a string literal [s]. *)
Definition eq_str (v : value) (s : string) : bool :=
  match v with
  | VStr t => bool_decide (t = s)
  | _ => false
  end.

(** [v == n] for an integer [n]; [True == 1] and [False == 0] hold in Python. *)
Definition eq_int (v : value) (n : Z) : bool :=
  match v with
  | VInt z => (z =? n)%Z
  | VBool b => ((if b then 1 else 0) =? n)%Z
  | _ => false
  end.

(** Truth value of an object in a condition. *)
Definition truthy (v : value) : bool :=
  match v with
  | VNone => false
  | VBool b => b
  | VInt z => negb (z =? 0)%Z
  | VStr s => negb (bool_decide (s = ""))
  | VList l => match l with [] => false | _ => true end
  | VDict d => negb (bool_decide (d = ∅))
  end.

Definition not_iterable (v : value) : exn :=
  Raise TypeError ("argument of type '" +:+ type_name v +:+ "' is not iterable").

(** [k in v] for a string [k]. *)
Definition contains (k : string) (v : value) : res bool :=
  match v with
  | VDict d => inr (bool_decide (is_Some (d !! k)))
  | VList l => inr (existsb (fun x => eq_str x k) l)
  | VStr s => inr (is_substring k s)
  | _ => inl (not_iterable v)
  end.

(** [v[k]] for a string [k]. *)
Definition getitem (v : value) (k : string) : res value :=
  match v with
  | VDict d =>
      match d !! k with
      | Some x => inr x
      | None => inl (Raise KeyError (repr k))
      end
  | VList _ => inl (Raise TypeError "list indices must be integers or slices, not str")
  | VStr _ => inl (Raise TypeError "string indices must be integers, not 'str'")
  | _ => inl (Raise TypeError ("'" +:+ type_name v +:+ "' object is not subscriptable"))
  end.

(** [d[k]] on a dictionary. *)
Definition dict_getitem (d : gmap string value) (k : string) : res value :=
  getitem (VDict d) k.

(** [v.get(k)] / [v.get(k, default)]: only dictionaries have [get]. *)
Definition get_method (v : value) (k : string) (dflt : value) : res value :=
  match v with
  | VDict d => inr (default dflt (d !! k))
  | _ => inl (Raise AttributeError
                ("'" +:+ type_name v +:+ "' object has no attribute 'get'"))
  end.

(** [v[k] = x] for a string [k]. *)
Definition setitem (v : value) (k : string) (x : value) : res (gmap string value) :=
  match v with
  | VDict d => inr (<[k := x]> d)
  | VList _ => inl (Raise TypeError "list indices must be integers or slices, not str")
  | _ => inl (Raise TypeError
                ("'" +:+ type_name v +:+ "' object does not support item assignment"))
  end.

(** [for t in v]: the objects visited.  A dictionary yields its keys. *)
Definition iterate (v : value) : res (list value) :=
  match v with
  | VList l => inr l
  | VStr s => inr (VStr <$> chars s)
  | VDict d => inr ((fun kv => VStr kv.1) <$> map_to_list d)
  | _ => inl (Raise TypeError ("'" +:+ type_name v +:+ "' object is not iterable"))
  end.

(** ** Randomness

    The generator is the list of the draws still to come; an exhausted
    generator keeps drawing [0]. *)

Definition rng : Type := list nat.

Definition draw : st rng nat :=
  fun g => match g with
           | [] => (inr 0, [])
           | n :: g' => (inr n, g')
           end.

(** [random.randint(a, b)] with [a <= b]. *)
Definition randint (a b : Z) : st rng Z :=
  (let* n := draw in st_ret (a + Z.of_nat n mod (b - a + 1))%Z)%st.

(** [random.choice(seq)] *)
Definition choice (seq : list value) : st rng value :=
  match seq with
  | [] => st_lift (inl (Raise IndexError "Cannot choose from an empty sequence"))
  | x :: _ => (let* n := draw in st_ret (nth (n mod length seq) seq x))%st
  end.

(** The Faker providers called by the variation generator. *)
Inductive faker_method : Type :=
  | Fk_email | Fk_company_email | Fk_free_email | Fk_user_name | Fk_domain_name
  | Fk_first_name | Fk_last_name | Fk_name | Fk_password
  | Fk_phone_number | Fk_msisdn.

(** ** Data model *)

(** The per-field dictionary built by schema extraction. *)
Record FieldSpec : Type := {
  fs_type : value;
  fs_description : value;
  fs_required : bool;
  fs_format : option value;
  fs_default : option value;
  fs_example : option value
}.

Record RequirementsModel : Type := {
  required_fields : gmap string FieldSpec;
  optional_fields : gmap string FieldSpec
}.

(** What an HTTP call is made of, and what comes back. *)
Record request : Type := {
  rq_verb : string;
  rq_url : string;
  rq_params : option value;
  rq_json : option value;
  rq_json_header : bool
}.

Record response : Type := {
  status_code : Z;
  json_body : option value;   (* [None]: [response.json()] raises JSONDecodeError *)
  text : string
}.

Record failed_entry : Type := {
  fe_name : value;
  fe_expected_status : value;
  fe_actual_status : value;
  fe_error : value
}.

Record report : Type := {
  total_tests : nat;
  passed_tests : nat;
  failed_tests : nat;
  success_rate : string;
  timestamp : string;
  test_results : list (gmap string value);
  failed_tests_summary : list failed_entry
}.

(** [itertools.combinations(l, r)]: the [r]-element subsequences of [l],
    by position, in lexicographic order of the positions. *)
Fixpoint combinations {A : Type} (l : list A) (r : nat) : list (list A) :=
  match l with
  | [] => match r with O => [[]] | S _ => [] end
  | x :: l' =>
      match r with
      | O => [[]]
      | S r' => (cons x <$> combinations l' r') ++ combinations l' r
      end
  end.

(** Binomial coefficient, by Pascal's rule. *)
Fixpoint choose (n k : nat) : nat :=
  match n, k with
  | _, O => 1
  | O, S _ => 0
  | S n', S k' => choose n' k' + choose n' k
  end.

(** Closes [x = y] by evaluating both sides. *)
Ltac run := lazymatch goal with |- ?x = _ => vm_cast_no_check (eq_refl x) end.

Section Engine.

(** ** The world outside the program *)

(** [faker.<method>()]: the text produced from one draw. *)
Variable fake : faker_method -> nat -> string.
(** [str(v)] *)
Variable str_of : value -> string.
(** [json.loads(text)]; [inl] when it raises JSONDecodeError. *)
Variable json_loads : string -> res value.
(** The network and the clock. *)
Variable World : Type.
Variable send : request -> st World response.
Variable now : World -> string * World.
(** [f"{(passed/total)*100:.2f}%"], a floating-point computation. *)
Variable format_rate : nat -> nat -> string.

(** ** Schema extraction: one property (analyze_endpoint_structure, the
    body of the loop over [schema['properties'].items()]) *)

(** [[t.get('type') for t in any_of if 'type' in t]] *)
Definition any_of_types (any_of : list value) : res (list value) :=
  res_fold (fun acc t =>
              let* has := contains "type" t in
              if has : bool then
                let* ty := get_method t "type" VNone in inr (acc ++ [ty])%list
              else inr acc)%res
           [] any_of.

(** The last [format] declared by a member of [anyOf] wins. *)
Definition any_of_format (fmt : option value) (any_of : list value) : res (option value) :=
  res_fold (fun acc type_info =>
              let* has := contains "format" type_info in
              if has : bool then
                let* f := getitem type_info "format" in inr (Some f)
              else inr acc)%res
           fmt any_of.

(** The "Add example" chain. *)
Definition synthesize_example (field_name : string) (ty : value)
    (dflt : option value) : option value :=
  if bool_decide (lower field_name = "email") then Some (VStr "user@gmail.com")
  else if is_substring "password" (lower field_name) then Some (VStr "StrongPassword123!")
  else if eq_str ty "string" then Some (VStr ("Sample " +:+ field_name))
  else if eq_str ty "boolean" then Some (default (VBool true) dflt)
  else None.

Definition process_property (required : value) (field_name : string)
    (field_info : value) : res FieldSpec :=
  match field_info with
  | VDict info =>
      let ty0 := default (VStr "string") (info !! "type") in
      let descr := default (VStr "") (info !! "title") in
      (let* req := contains field_name required in
       let fmt0 := info !! "format" in
       let dflt := info !! "default" in
       let* (ty, fmt) :=
         match info !! "anyOf" with
         | Some any_of =>
             let* members := iterate any_of in
             let* tys := any_of_types members in
             let* fmt := any_of_format fmt0 members in
             inr (VList tys, fmt)
         | None => inr (ty0, fmt0)
         end in
       inr {| fs_type := ty; fs_description := descr; fs_required := req;
              fs_format := fmt; fs_default := dflt;
              fs_example := synthesize_example field_name ty dflt |})%res
  | _ => inl (Raise AttributeError
                ("'" +:+ type_name field_info +:+ "' object has no attribute 'get'"))
  end.

(** The loop over the properties.  Entries are visited in the order of
    [map_to_list]; a property that raises ends the analysis. *)
Definition process_properties (required : value) (properties : gmap string value)
    : res (gmap string FieldSpec) :=
  res_fold (fun (acc : gmap string FieldSpec) '(field_name, field_info) =>
              let* field_data := process_property required field_name field_info in
              inr (<[field_name := field_data]> acc))%res
           ∅ (map_to_list properties).

(** ** get_default_request_body *)

(** The value chosen for a required field, [None] when no branch of the
    chain applies. *)
Definition required_value (field : string) (info : FieldSpec) : option value :=
  match fs_example info with
  | Some ex => Some ex
  | None =>
      if match fs_format info with Some f => eq_str f "email" | None => false end
      then Some (VStr "test@example.com")
      else if is_substring "password" (lower field) then Some (VStr "TestPassword123!")
      else if eq_str (fs_type info) "string" then Some (VStr ("Test" +:+ field))
      else if eq_str (fs_type info) "boolean" then Some (VBool true)
      else if eq_str (fs_type info) "integer" then Some (VInt 1)
      else None
  end.

Definition add_required (body : gmap string value) (item : string * FieldSpec)
    : gmap string value :=
  match required_value item.1 item.2 with
  | Some v => <[item.1 := v]> body
  | None => body
  end.

Definition add_optional (body : gmap string value) (item : string * FieldSpec)
    : gmap string value :=
  match fs_default item.2 with
  | Some v => <[item.1 := v]> body
  | None => body
  end.

Definition get_default_request_body (requirements : RequirementsModel)
    : gmap string value :=
  let default_body := foldl add_required ∅ (map_to_list (required_fields requirements)) in
  foldl add_optional default_body (map_to_list (optional_fields requirements)).

(** ** generate_field_variations *)

Definition faker (m : faker_method) : st rng value :=
  (let* n := draw in st_ret (VStr (fake m n)))%st.

Definition generate_field_variations (field_name : string)
    (field_info : option FieldSpec) : st rng (list value) :=
  match field_info with
  | None => st_ret []
  | Some info =>
      if eq_str (fs_type info) "string" then
        if is_substring "email" (lower field_name) then
          (let* e1 := faker Fk_email in
           let* e2 := faker Fk_company_email in
           let* e3 := faker Fk_free_email in
           let* u := draw in
           let* d := draw in
           st_ret [e1; e2; e3;
                   VStr (fake Fk_user_name u +:+ "@" +:+ fake Fk_domain_name d);
                   VStr "invalid.email"; VStr "test@.com"; VStr "@domain.com";
                   VStr " @domain.com"])%st
        else if is_substring "name" (lower field_name) then
          (let* n1 := faker Fk_first_name in
           let* n2 := faker Fk_last_name in
           let* n3 := faker Fk_name in
           st_ret [n1; n2; n3; VStr "A"; VStr (repeat_string "x" 50); VStr "123";
                   VStr "$pecial Ch@racters"; VStr ""])%st
        else if is_substring "password" (lower field_name) then
          (let* p := faker Fk_password in
           st_ret [p; VStr "P@ssw0rd123!"; VStr "Str0ng!P@ss"; VStr "weak";
                   VStr "12345678"; VStr "password"; VStr ""])%st
        else if is_substring "phone" (lower field_name) then
          (let* p1 := faker Fk_phone_number in
           let* p2 := faker Fk_msisdn in
           st_ret [p1; p2; VStr "+1234567890"; VStr "123"; VStr "abcdefghij";
                   VStr ""])%st
        else st_ret []
      else if eq_str (fs_type info) "integer" then
        (let* n := randint 1 100 in
         st_ret [VInt n; VInt 0; VInt (-1); VInt 999999; VStr "not_a_number";
                 VStr ""])%st
      else if eq_str (fs_type info) "boolean" then
        st_ret [VBool true; VBool false; VNone; VStr "true"; VStr "false";
                VInt 0; VInt 1]
      else st_ret []
  end.

(** The lookup of a selected field in the two buckets; [None] is the empty
    [field_info] of a field found in neither. *)
Definition lookup_field_info (requirements : RequirementsModel) (field : string)
    : option FieldSpec :=
  match required_fields requirements !! field with
  | Some info => Some info
  | None => optional_fields requirements !! field
  end.

Definition build_field_variations (requirements : RequirementsModel)
    (selected_fields : list string) : st rng (gmap string (list value)) :=
  st_fold (fun (field_variations : gmap string (list value)) field =>
             let* variations :=
               generate_field_variations field (lookup_field_info requirements field) in
             st_ret (<[field := variations]> field_variations))%st
          ∅ selected_fields.

(** ** generate_combination_test_cases

    [default_body] is the variable of the enclosing [generate_test_cases]. *)

Definition single_field_case (default_body : gmap string value)
    (field : string) (v : value) : gmap string value :=
  {[ "name" := VStr ("Test " +:+ field +:+ " with value: " +:+ str_of v);
     "method" := VStr "POST";
     "data" := VDict (<[field := v]> default_body);
     "expected_status_code" := VInt (if eq_str v "" then 400 else 200);
     "expected_behavior" := VStr ("Testing " +:+ field +:+ " with specific value") ]}.

(** [field_variations[field]] *)
Definition variations_of (field_variations : gmap string (list value))
    (field : string) : res (list value) :=
  match field_variations !! field with
  | Some variations => inr variations
  | None => inl (Raise KeyError (repr field))
  end.

(** First loop: one case per selected field and variation value. *)
Definition single_field_pass (default_body : gmap string value)
    (selected_fields : list string) (field_variations : gmap string (list value))
    (test_cases : list (gmap string value)) : res (list (gmap string value)) :=
  res_fold (fun test_cases field =>
              let* variations := variations_of field_variations field in
              inr (test_cases ++ (single_field_case default_body field <$> variations))%list)%res
           test_cases selected_fields.

(** The inner loop [for field in fields_combo], on the body of one case. *)
Definition combination_body (default_body : gmap string value)
    (field_variations : gmap string (list value)) (fields_combo : list string)
    : st rng (gmap string value) :=
  st_fold (fun body field =>
             let* variations := st_lift (variations_of field_variations field) in
             let* v := choice variations in
             st_ret (<[field := v]> body))%st
          default_body fields_combo.

Definition combination_case (default_body : gmap string value)
    (field_variations : gmap string (list value)) (fields_combo : list string)
    : st rng (gmap string value) :=
  (let* body := combination_body default_body field_variations fields_combo in
   st_ret ({[ "name" := VStr ("Test combination of " +:+ join ", " fields_combo);
              "method" := VStr "POST";
              "data" := VDict body;
              "expected_status_code" := VInt 200;
              "expected_behavior" := VStr "Testing multiple field combinations" ]}
           : gmap string value))%st.

(** [range(2, min(4, len(selected_fields) + 1))] *)
Definition combination_sizes (selected_fields : list string) : list nat :=
  seq 2 (Nat.min 4 (length selected_fields + 1) - 2).

(** Every combination of every size, three times each ([for _ in range(3)]). *)
Definition combination_rounds (selected_fields : list string) : list (list string) :=
  r ← combination_sizes selected_fields;
  fields_combo ← combinations selected_fields r;
  replicate 3 fields_combo.

(** Second loop. *)
Definition combination_pass (default_body : gmap string value)
    (selected_fields : list string) (field_variations : gmap string (list value))
    (test_cases : list (gmap string value)) : st rng (list (gmap string value)) :=
  st_fold (fun test_cases fields_combo =>
             let* test_case := combination_case default_body field_variations fields_combo in
             st_ret (test_cases ++ [test_case])%list)%st
          test_cases (combination_rounds selected_fields).

Definition generate_combination_test_cases (default_body : gmap string value)
    (selected_fields : list string) (field_variations : gmap string (list value))
    : st rng (list (gmap string value)) :=
  (let* test_cases :=
     st_lift (single_field_pass default_body selected_fields field_variations []) in
   combination_pass default_body selected_fields field_variations test_cases)%st.

(** ** generate_test_cases *)

(** The loop "Ensure complete request bodies", for one case. *)
Definition complete_fields (default_body : gmap string value)
    (selected_fields : list string) (case : value) : res (gmap string value) :=
  res_fold (fun complete_body field =>
              let* data := getitem case "data" in
              let* declared := contains field data in
              if declared : bool then
                let* data := getitem case "data" in
                let* v := getitem data field in
                inr (<[field := v]> complete_body)
              else inr complete_body)%res
           default_body selected_fields.

Definition complete_case (default_body : gmap string value)
    (selected_fields : list string) (case : value) : res (gmap string value) :=
  (let* has_data := contains "data" case in
   let* complete_body :=
     if has_data : bool then complete_fields default_body selected_fields case
     else inr default_body in
   setitem case "data" (VDict complete_body))%res.

Definition complete_cases (default_body : gmap string value)
    (selected_fields : list string) (all_test_cases : list value)
    : res (list (gmap string value)) :=
  res_fold (fun done case =>
              let* case' := complete_case default_body selected_fields case in
              inr (done ++ [case'])%list)%res
           [] all_test_cases.

(** [automated_test_cases + gpt_test_cases] *)
Definition concat_cases (automated_test_cases : list (gmap string value))
    (gpt_test_cases : value) : res (list value) :=
  match gpt_test_cases with
  | VList l => inr ((VDict <$> automated_test_cases) ++ l)%list
  | _ => inl (Raise TypeError
                ("can only concatenate list (not " +:+ dquote +:+ type_name gpt_test_cases
                 +:+ dquote +:+ ") to list"))
  end.

(** The body of the [try].  [reply] is the outcome of the call to the
    language model: the text of its answer, or the exception it raised. *)
Definition generate_test_cases_try (requirements : RequirementsModel)
    (reply : res string) (selected_fields : list string)
    (default_body : gmap string value) : st rng (list (gmap string value)) :=
  (let* field_variations := build_field_variations requirements selected_fields in
   let* automated_test_cases :=
     generate_combination_test_cases default_body selected_fields field_variations in
   let* content := st_lift reply in
   let* gpt_test_cases := st_lift (json_loads content) in
   let* all_test_cases := st_lift (concat_cases automated_test_cases gpt_test_cases) in
   st_lift (complete_cases default_body selected_fields all_test_cases))%st.

(** [except Exception: return None] *)
Definition generate_test_cases (requirements : RequirementsModel)
    (reply : res string) (selected_fields : list string)
    (default_body : gmap string value) (g : rng) : option (list (gmap string value)) :=
  match (generate_test_cases_try requirements reply selected_fields default_body g).1 with
  | inr all_test_cases => Some all_test_cases
  | inl _ => None
  end.

(** ** execute_test_cases *)

(** [case["method"].lower()] *)
Definition lower_method (m : value) : res string :=
  match m with
  | VStr s => inr (lower s)
  | _ => inl (Raise AttributeError
                ("'" +:+ type_name m +:+ "' object has no attribute 'lower'"))
  end.

(** [f"{endpoint}/{data['id']}"] when ["id" in data], else nothing. *)
Definition specific_endpoint (endpoint : string) (data : value) : res (option string) :=
  (let* has_id := contains "id" data in
   if has_id : bool then
     let* id := getitem data "id" in inr (Some (endpoint +:+ "/" +:+ str_of id))
   else inr None)%res.

(** The request that the dispatch on [method] issues. *)
Definition build_request (endpoint method : string) (data : value) : res request :=
  if bool_decide (method = "get") then
    (let* specific := specific_endpoint endpoint data in
     match specific with
     | Some url => inr {| rq_verb := "get"; rq_url := url; rq_params := None;
                          rq_json := None; rq_json_header := false |}
     | None => inr {| rq_verb := "get"; rq_url := endpoint; rq_params := Some data;
                      rq_json := None; rq_json_header := false |}
     end)%res
  else if bool_decide (method = "post") then
    inr {| rq_verb := "post"; rq_url := endpoint; rq_params := None;
           rq_json := Some data; rq_json_header := true |}
  else if bool_decide (method = "put") then
    (let* specific := specific_endpoint endpoint data in
     inr {| rq_verb := "put"; rq_url := default endpoint specific; rq_params := None;
            rq_json := Some data; rq_json_header := true |})%res
  else if bool_decide (method = "delete") then
    (let* specific := specific_endpoint endpoint data in
     inr {| rq_verb := "delete"; rq_url := default endpoint specific; rq_params := None;
            rq_json := None; rq_json_header := false |})%res
  else inl (Raise ValueError ("Unsupported method: " +:+ method)).

(** The [try] block up to the moment the response is there. *)
Definition perform (endpoint : string) (case : gmap string value) : st World response :=
  (let* m := st_lift (dict_getitem case "method") in
   let* method := st_lift (lower_method m) in
   let* data := st_lift (dict_getitem case "data") in
   let* rq := st_lift (build_request endpoint method data) in
   send rq)%st.

(** "Record response details" *)
Definition record_response (case : gmap string value) (r : response) : gmap string value :=
  <["actual_response" := default (VStr (text r)) (json_body r)]>
    (<["actual_status_code" := VInt (status_code r)]> case).

(** "Add test result" *)
Definition score (case : gmap string value) (r : response) (w : World)
    : res (gmap string value) * World :=
  match dict_getitem case "expected_status_code" with
  | inl e => (inl e, w)
  | inr expected =>
      let '(stamp, w') := now w in
      (inr (<["test_result" :=
                VDict {[ "passed" := VBool (eq_int expected (status_code r));
                         "status_code_match" := VBool (eq_int expected (status_code r));
                         "timestamp" := VStr stamp;
                         "notes" := VStr ("Expected " +:+ str_of expected +:+ ", got "
                                          +:+ str_of (VInt (status_code r))) ]}]> case),
       w')
  end.

(** The [except Exception as e] handler. *)
Definition on_error (case : gmap string value) (e : exn) (w : World)
    : gmap string value * World :=
  let '(stamp, w') := now w in
  (<["test_result" :=
       VDict {[ "passed" := VBool false;
                "error" := VStr (exn_msg e);
                "timestamp" := VStr stamp ]}]>
     (<["actual_response" := VStr (exn_msg e)]>
        (<["actual_status_code" := VStr "Error"]> case)),
   w').

(** One turn of the loop: the case as appended to [results]. *)
Definition execute_case (endpoint : string) (case : gmap string value) (w : World)
    : gmap string value * World :=
  match perform endpoint case w with
  | (inl e, w1) => on_error case e w1
  | (inr r, w1) =>
      let case1 := record_response case r in
      match score case1 r w1 with
      | (inl e, w2) => on_error case1 e w2
      | (inr case2, w2) => (case2, w2)
      end
  end.

Fixpoint execute_test_cases (endpoint : string) (test_cases : list (gmap string value))
    (w : World) : list (gmap string value) * World :=
  match test_cases with
  | [] => ([], w)
  | case :: rest =>
      let '(result, w1) := execute_case endpoint case w in
      let '(results, w2) := execute_test_cases endpoint rest w1 in
      (result :: results, w2)
  end.

(** ** generate_test_report *)

(** [test.get("test_result", {}).get(key, dflt)] *)
Definition test_result_entry (test : gmap string value) (key : string) (dflt : value)
    : res value :=
  get_method (default (VDict ∅) (test !! "test_result")) key dflt.

(** [test.get("test_result", {}).get("passed", False)] as a condition. *)
Definition passed (test : gmap string value) : res bool :=
  (let* p := test_result_entry test "passed" (VBool false) in inr (truthy p))%res.

(** [sum(1 for test in results if ...)] *)
Definition count_passed (results : list (gmap string value)) : res nat :=
  res_fold (fun n test => let* p := passed test in inr (if p : bool then S n else n))%res
           0 results.

Definition failed_summary_entry (test : gmap string value) : res failed_entry :=
  (let* name := dict_getitem test "name" in
   let* expected := dict_getitem test "expected_status_code" in
   let* actual := dict_getitem test "actual_status_code" in
   let* error := test_result_entry test "error" (VStr "No error message") in
   inr {| fe_name := name; fe_expected_status := expected;
          fe_actual_status := actual; fe_error := error |})%res.

(** The comprehension over the tests that are not passed. *)
Definition failed_summary (results : list (gmap string value)) : res (list failed_entry) :=
  res_fold (fun acc test =>
              let* p := passed test in
              if p : bool then inr acc
              else let* entry := failed_summary_entry test in inr (acc ++ [entry])%list)%res
           [] results.

Definition generate_test_report (results : list (gmap string value)) (w : World)
    : res report :=
  let total := length results in
  (let* npassed := count_passed results in
   let nfailed := total - npassed in
   let rate := if bool_decide (0 < total) then format_rate npassed total else "0%" in
   let stamp := (now w).1 in
   let* summary := failed_summary results in
   inr {| total_tests := total; passed_tests := npassed; failed_tests := nfailed;
          success_rate := rate; timestamp := stamp; test_results := results;
          failed_tests_summary := summary |})%res.

(** ** analyze_endpoint_structure: the addresses *)

(** [s.split(sep)] for a one-character separator. *)
Fixpoint split_on (sep : ascii) (s : string) : list string :=
  match s with
  | EmptyString => [EmptyString]
  | String c s' =>
      if bool_decide (c = sep) then EmptyString :: split_on sep s'
      else match split_on sep s' with
           | part :: parts => String c part :: parts
           | [] => [String c EmptyString]
           end
  end.

Definition slash : ascii := ascii_of_nat 47.

(** [l[:-2]] and [l[-2:]] *)
Definition but_last_two {A : Type} (l : list A) : list A := take (length l - 2) l.
Definition last_two {A : Type} (l : list A) : list A := drop (length l - 2) l.

(** ['/'.join(endpoint.split('/')[:-2])] *)
Definition base_url (endpoint : string) : string :=
  join "/" (but_last_two (split_on slash endpoint)).

Definition openapi_url (endpoint : string) : string :=
  base_url endpoint +:+ "/openapi.json".

(** ['/' + '/'.join(endpoint.split('/')[-2:])] *)
Definition relative_path (endpoint : string) : string :=
  "/" +:+ join "/" (last_two (split_on slash endpoint)).

(** [schema_ref.split('/')[-1]] *)
Definition schema_name_of (schema_ref : value) : res string :=
  match schema_ref with
  | VStr s => inr (List.last (split_on slash s) EmptyString)
  | _ => inl (Raise AttributeError
                ("'" +:+ type_name schema_ref +:+ "' object has no attribute 'split'"))
  end.

(** ** analyze_endpoint_structure: the document *)

Record endpoint_info : Type := {
  ei_summary : value;
  ei_description : value;
  ei_schema_name : string;
  ei_responses : value;
  ei_tags : value
}.

(** The four dictionaries the function can return: the successful one
    (whose [structure], [status_code] and [source] are the constants
    "object", 200 and "openapi_doc"), "not found in documentation", a fetch
    answered with another status, and "Analysis failed: <str(e)>". *)
Inductive analysis : Type :=
  | AnalysisOk (sample_data : gmap string FieldSpec) (info : endpoint_info)
  | AnalysisNotFound
  | AnalysisFetchFailed (status : Z)
  | AnalysisFailed (e : exn).

(** [a and b], with [b] evaluated only when [a] holds. *)
Definition and_then (a : res bool) (b : res bool) : res bool :=
  (let* x := a in if x : bool then b else inr false)%res.

(** [v.items()] *)
Definition items_of (v : value) : res (gmap string value) :=
  match v with
  | VDict d => inr d
  | _ => inl (Raise AttributeError
                ("'" +:+ type_name v +:+ "' object has no attribute 'items'"))
  end.

(** The condition "Get schema reference". *)
Definition has_request_schema (post_info : value) : res bool :=
  and_then (contains "requestBody" post_info)
    (and_then (let* rb := getitem post_info "requestBody" in contains "content" rb)%res
       (and_then (let* rb := getitem post_info "requestBody" in
                  let* content := getitem rb "content" in
                  contains "application/json" content)%res
                 (let* rb := getitem post_info "requestBody" in
                  let* content := getitem rb "content" in
                  let* body := getitem content "application/json" in
                  contains "schema" body)%res)).

(** From the schema found under [components.schemas] to the result. *)
Definition analyze_schema (post_info : value) (schema_name : string) (schema : value)
    : res analysis :=
  (let* has_properties := contains "properties" schema in
   if has_properties : bool then
     let* required := get_method schema "required" (VList []) in
     let* properties := getitem schema "properties" in
     let* items := items_of properties in
     let* sample_data := process_properties required items in
     let* summary := get_method post_info "summary" (VStr "") in
     let* description := get_method post_info "description" (VStr "") in
     let* responses := get_method post_info "responses" (VDict ∅) in
     let* tags := get_method post_info "tags" (VList []) in
     inr (AnalysisOk sample_data
            {| ei_summary := summary; ei_description := description;
               ei_schema_name := schema_name; ei_responses := responses;
               ei_tags := tags |})
   else inr AnalysisNotFound)%res.

(** The POST operation of the path, down to the referenced schema. *)
Definition analyze_operation (openapi_spec post_info : value) : res analysis :=
  (let* has_schema := has_request_schema post_info in
   if has_schema : bool then
     let* rb := getitem post_info "requestBody" in
     let* content := getitem rb "content" in
     let* body := getitem content "application/json" in
     let* schema_decl := getitem body "schema" in
     let* schema_ref := get_method schema_decl "$ref" VNone in
     if truthy schema_ref then
       let* schema_name := schema_name_of schema_ref in
       let* components := getitem openapi_spec "components" in
       let* schemas := getitem components "schemas" in
       let* schema := getitem schemas schema_name in
       analyze_schema post_info schema_name schema
     else inr AnalysisNotFound
   else inr AnalysisNotFound)%res.

(** Everything between [response.json()] and the [return]s. *)
Definition analyze_document (openapi_spec : value) (path : string) : res analysis :=
  (let* listed :=
     and_then (contains "paths" openapi_spec)
              (let* paths := getitem openapi_spec "paths" in contains path paths) in
   if listed : bool then
     let* paths := getitem openapi_spec "paths" in
     let* path_info := getitem paths path in
     let* has_post := contains "post" path_info in
     if has_post : bool then
       let* post_info := getitem path_info "post" in
       analyze_operation openapi_spec post_info
     else inr AnalysisNotFound
   else inr AnalysisNotFound)%res.

Section Fetch.

(** [requests.get(openapi_url, headers=headers, timeout=10)] *)
Variable fetch : string -> st World response.
(** The text of the JSONDecodeError that [response.json()] raises. *)
Variable json_error : response -> string.

Definition analyze_endpoint_structure (endpoint : string) (w : World) : analysis * World :=
  match fetch (openapi_url endpoint) w with
  | (inl e, w') => (AnalysisFailed e, w')
  | (inr r, w') =>
      if (status_code r =? 200)%Z then
        match json_body r with
        | None => (AnalysisFailed (Raise JSONDecodeError (json_error r)), w')
        | Some openapi_spec =>
            match analyze_document openapi_spec (relative_path endpoint) with
            | inl e => (AnalysisFailed e, w')
            | inr result => (result, w')
            end
        end
      else (AnalysisFetchFailed (status_code r), w')
  end.

(** The [error] entry of an unsuccessful result. *)
Definition analysis_error (a : analysis) : option string :=
  match a with
  | AnalysisOk _ _ => None
  | AnalysisNotFound => Some "Endpoint or schema information not found in documentation"
  | AnalysisFetchFailed status =>
      Some ("Failed to fetch OpenAPI documentation. Status code: " +:+ str_of (VInt status))
  | AnalysisFailed e => Some ("Analysis failed: " +:+ exn_msg e)
  end.

(** ** analyze_endpoint_requirements *)

(** The requirements dictionary: the two buckets, with [endpoint_type] and
    the three entries of [metadata]. *)
Record requirements_analysis : Type := {
  ra_endpoint_type : string;
  ra_model : RequirementsModel;
  ra_summary : value;
  ra_description : value;
  ra_tags : value
}.

(** The new [field_data] built from an entry of the sample data. *)
Definition copy_field (field_info : FieldSpec) : FieldSpec :=
  {| fs_type := fs_type field_info;
     fs_description := fs_description field_info;
     fs_required := fs_required field_info;
     fs_format := fs_format field_info;
     fs_default := fs_default field_info;
     fs_example := fs_example field_info |}.

Definition add_field (model : RequirementsModel) (item : string * FieldSpec)
    : RequirementsModel :=
  if fs_required item.2 then
    {| required_fields := <[item.1 := copy_field item.2]> (required_fields model);
       optional_fields := optional_fields model |}
  else
    {| required_fields := required_fields model;
       optional_fields := <[item.1 := copy_field item.2]> (optional_fields model) |}.

Definition sort_fields (sample_data : gmap string FieldSpec) : RequirementsModel :=
  foldl add_field {| required_fields := ∅; optional_fields := ∅ |}
        (map_to_list sample_data).

Definition analyze_endpoint_requirements (endpoint : string) (w : World)
    : option requirements_analysis * World :=
  match analyze_endpoint_structure endpoint w with
  | (AnalysisOk sample_data info, w') =>
      (Some {| ra_endpoint_type := "users";
               ra_model := sort_fields sample_data;
               ra_summary := ei_summary info;
               ra_description := ei_description info;
               ra_tags := ei_tags info |}, w')
  | (_, w') => (None, w')
  end.

(** ** generate_validation_rules

    [reply] is the outcome of the call to the language model, which is made
    outside the [try]; only JSONDecodeError is caught. *)
Definition generate_validation_rules (reply : res string) : res (option value) :=
  (let* content := reply in
   match json_loads content with
   | inr validation_rules => inr (Some validation_rules)
   | inl e =>
       match exn_type e with
       | JSONDecodeError => inr None
       | _ => inl e
       end
   end)%res.

(** ** run_complete_test_suite

    [selection] is what [select_fields_for_testing] returned from the
    user's input; the printed progress lines are left out. *)
Inductive suite_result : Type :=
  | SuiteMessage (msg : string)
  | SuiteReport (selected_fields : list string) (default_body : gmap string value)
      (requirements : requirements_analysis) (validation_rules : value)
      (test_report : report).

Definition run_complete_test_suite (endpoint : string)
    (selection : option (list string)) (rules_reply cases_reply : res string)
    (g : rng) (w : World) : res suite_result * World :=
  match analyze_endpoint_requirements endpoint w with
  | (None, w1) => (inr (SuiteMessage "Failed to analyze endpoint requirements"), w1)
  | (Some requirements, w1) =>
      match selection with
      | None | Some [] => (inr (SuiteMessage "No fields selected for testing"), w1)
      | Some selected_fields =>
          let default_body := get_default_request_body (ra_model requirements) in
          match generate_validation_rules rules_reply with
          | inl e => (inl e, w1)
          | inr None => (inr (SuiteMessage "Failed to generate validation rules"), w1)
          | inr (Some validation_rules) =>
              if truthy validation_rules then
                match generate_test_cases (ra_model requirements) cases_reply
                        selected_fields default_body g with
                | None | Some [] =>
                    (inr (SuiteMessage "Failed to generate test cases"), w1)
                | Some test_cases =>
                    let '(test_results, w2) :=
                      execute_test_cases endpoint test_cases w1 in
                    match generate_test_report test_results w2 with
                    | inl e => (inl e, (now w2).2)
                    | inr final_report =>
                        (inr (SuiteReport selected_fields default_body requirements
                                validation_rules final_report), (now w2).2)
                    end
                end
              else (inr (SuiteMessage "Failed to generate validation rules"), w1)
          end
      end
  end.

End Fetch.

(** ** Sample surroundings and inputs

    One concrete choice for each parameter, used to run the definitions. *)

Definition sample_fake (m : faker_method) (n : nat) : string :=
  match m with
  | Fk_email => "amy@example.org"
  | Fk_company_email => "amy@acme.com"
  | Fk_free_email => "amy@gmail.com"
  | Fk_user_name => "amy"
  | Fk_domain_name => "acme.com"
  | Fk_first_name => "Amy"
  | Fk_last_name => "Lee"
  | Fk_name => "Amy Lee"
  | Fk_password => "q7!Rz2#Lm9@x"
  | Fk_phone_number => "555-0100"
  | Fk_msisdn => "4915112345678"
  end.

Definition sample_str (v : value) : string :=
  match v with
  | VNone => "None"
  | VBool b => if b then "True" else "False"
  | VInt z => pretty z
  | VStr s => s
  | VList _ => "[...]"
  | VDict _ => "{...}"
  end.

(** A parser that knows two JSON texts. *)
Definition sample_json_loads (s : string) : res value :=
  if bool_decide (s = "[]") then inr (VList [])
  else if bool_decide (s = "[{}]") then inr (VList [VDict ∅])
  else inl (Raise JSONDecodeError "Expecting value: line 1 column 1 (char 0)").

(** A network that plays back a script of outcomes, and a counting clock. *)
Record sample_world : Type := { script : list (res response); ticks : nat }.

Definition sample_send (rq : request) : st sample_world response :=
  fun w =>
    match script w with
    | [] => (inl (Raise RequestException "Connection refused"), w)
    | o :: rest => (o, {| script := rest; ticks := ticks w |})
    end.

Definition sample_now (w : sample_world) : string * sample_world :=
  (pretty (ticks w), {| script := script w; ticks := S (ticks w) |}).

Definition sample_format_rate (npassed total : nat) : string :=
  pretty (npassed * 100 / total) +:+ "%".

(** A signup endpoint: a required email, a required list of tags, and an
    optional free-text field with an empty default. *)
Definition email_spec : FieldSpec :=
  {| fs_type := VStr "string"; fs_description := VStr "Email"; fs_required := true;
     fs_format := Some (VStr "email"); fs_default := None;
     fs_example := Some (VStr "user@gmail.com") |}.

Definition tags_spec : FieldSpec :=
  {| fs_type := VStr "array"; fs_description := VStr "Tags"; fs_required := true;
     fs_format := None; fs_default := None; fs_example := None |}.

Definition bio_spec : FieldSpec :=
  {| fs_type := VStr "string"; fs_description := VStr "Bio"; fs_required := false;
     fs_format := None; fs_default := Some (VStr ""); fs_example := Some (VStr "Sample bio") |}.

Definition signup_requirements : RequirementsModel :=
  {| required_fields := {[ "email" := email_spec; "tags" := tags_spec ]};
     optional_fields := {[ "bio" := bio_spec ]} |}.

Definition signup_body : gmap string value :=
  {[ "email" := VStr "user@gmail.com"; "bio" := VStr "" ]}.

Definition signup_endpoint : string := "https://api.example.test/api/signup".

(** Variation lists for three fields, as the generator shapes them. *)
Definition three_field_variations : gmap string (list value) :=
  {[ "email" := [VStr "amy@example.org"; VStr "invalid.email"];
     "name" := [VStr "Amy"; VStr "A"; VStr ""];
     "password" := [VStr "P@ssw0rd123!"; VStr "weak"; VStr ""] ]}.

(** An advisory scenario that declares [email], which is selected below,
    and [role], which is not. *)
Definition admin_scenario : gmap string value :=
  {[ "name" := VStr "Signup with an elevated role";
     "method" := VStr "POST";
     "data" := VDict {[ "email" := VStr "root@example.com"; "role" := VStr "admin" ]};
     "expected_status_code" := VInt 403;
     "expected_behavior" := VStr "The role is rejected" ]}.

(** A case ready for execution. *)
Definition signup_case (name email : string) (expected : Z) : gmap string value :=
  {[ "name" := VStr name;
     "method" := VStr "POST";
     "data" := VDict (<["email" := VStr email]> signup_body);
     "expected_status_code" := VInt expected;
     "expected_behavior" := VStr "Testing email with specific value" ]}.

Definition signup_request (email : string) : request :=
  {| rq_verb := "post"; rq_url := signup_endpoint; rq_params := None;
     rq_json := Some (VDict (<["email" := VStr email]> signup_body));
     rq_json_header := true |}.

Definition ok_response : response :=
  {| status_code := 200; json_body := Some (VDict {[ "id" := VInt 7 ]}); text := "" |}.

Definition refused : exn :=
  Raise RequestException "Connection refused".





(** [v[k1][k2]...] *)
Definition getpath (v : value) (keys : list string) : res value :=
  res_fold getitem v keys.

(** An OpenAPI document for the signup endpoint, and a server that always
    answers with it. *)
Definition signup_properties : gmap string value :=
  {[ "email" := VDict {[ "type" := VStr "string"; "title" := VStr "Email";
                         "format" := VStr "email" ]};
     "tags" := VDict {[ "type" := VStr "array"; "title" := VStr "Tags" ]};
     "bio" := VDict {[ "type" := VStr "string"; "title" := VStr "Bio";
                       "default" := VStr "" ]} ]}.

Definition signup_schema_decl : gmap string value :=
  {[ "$ref" := VStr "#/components/schemas/SignupForm" ]}.

Definition signup_operation (schema_decl : gmap string value) : gmap string value :=
  {[ "summary" := VStr "Sign up";
     "tags" := VList [VStr "users"];
     "requestBody" := VDict {[
       "content" := VDict {[
         "application/json" := VDict {[ "schema" := VDict schema_decl ]} ]} ]} ]}.

Definition signup_schema : gmap string value :=
  {[ "required" := VList [VStr "email"; VStr "tags"];
     "properties" := VDict signup_properties ]}.

Definition signup_document : value :=
  VDict {[
    "paths" := VDict {[
      "/api/signup" := VDict {[ "post" := VDict (signup_operation signup_schema_decl) ]} ]};
    "components" := VDict {[
      "schemas" := VDict {[ "SignupForm" := VDict signup_schema ]} ]} ]}.

Definition signup_sample_data : gmap string FieldSpec :=
  {[ "email" := email_spec; "tags" := tags_spec; "bio" := bio_spec ]}.

Definition signup_analysis : requirements_analysis :=
  {| ra_endpoint_type := "users"; ra_model := signup_requirements;
     ra_summary := VStr "Sign up"; ra_description := VStr "";
     ra_tags := VList [VStr "users"] |}.

(** A parser that also knows an object and a list of numbers. *)
Definition wider_json_loads (s : string) : res value :=
  if bool_decide (s = "{}") then inr (VDict ∅)
  else if bool_decide (s = "[1]") then inr (VList [VInt 1])
  else sample_json_loads s.

Definition sample_fetch (url : string) : st sample_world response :=
  fun w => (inr {| status_code := 200; json_body := Some signup_document; text := "" |}, w).

Definition sample_json_error (r : response) : string :=
  "Expecting value: line 1 column 1 (char 0)".

(** What the report's count is specified to be: a case is passed when its
    [test_result] mapping exists, has a [passed] entry, and that entry is
    true as a condition. *)
Definition counted_as_passed (test : gmap string value) : bool :=
  match test !! "test_result" with
  | Some (VDict tr) =>
      match tr !! "passed" with
      | Some p => truthy p
      | None => false
      end
  | _ => false
  end.

(** An executed test case as the aggregator reads it: it carries [name],
    [expected_status_code] and [actual_status_code], and its [test_result],
    when there is one, is a mapping. *)
Definition executed_case (test : gmap string value) : Prop :=
  is_Some (test !! "name") ∧
  is_Some (test !! "expected_status_code") ∧
  is_Some (test !! "actual_status_code") ∧
  ∀ v, test !! "test_result" = Some v → ∃ tr, v = VDict tr.

(** The data of a case built for the fields [targets]: a mapping with
    every key of the default body, and with the value of the default body
    (or no value, where the default body has none) under every key that is
    not one of [targets]. *)
Definition built_from (default_body : gmap string value)
    (targets : list string) (case : gmap string value) : Prop :=
  ∃ body : gmap string value,
    case !! "data" = Some (VDict body)
    ∧ dom default_body ⊆ dom body
    ∧ ∀ k, k ∉ targets → body !! k = default_body !! k.

(** The fields a scenario declares among the selected ones: those for
    which the completion loop finds [field in case['data']]. *)
Definition declares (case : value) (field : string) : bool :=
  match contains "data" case, getitem case "data" with
  | inr true, inr data =>
      match contains field data with
      | inr declared => declared
      | inl _ => false
      end
  | _, _ => false
  end.

Definition declared_fields (selected_fields : list string) (case : value) : list string :=
  List.filter (declares case) selected_fields.

(** [case['data'][field]] *)
Definition declared_value (case : value) (field : string) : res value :=
  (let* data := getitem case "data" in getitem data field)%res.

(** The data of [case] holds [v] under [field]. *)
Definition carries (case : gmap string value) (field : string) (v : value) : Prop :=
  ∃ body : gmap string value,
    case !! "data" = Some (VDict body) ∧ body !! field = Some v.

(** The entry listed for a failed case repeats its name and statuses. *)
Definition lists (test : gmap string value) (entry : failed_entry) : Prop :=
  test !! "name" = Some (fe_name entry)
  ∧ test !! "expected_status_code" = Some (fe_expected_status entry)
  ∧ test !! "actual_status_code" = Some (fe_actual_status entry).

(** What a run makes of a case: the three entries it adds, with a Boolean
    [passed]; everything else is kept. *)
Definition result_of (case result : gmap string value) : Prop :=
  is_Some (result !! "actual_status_code")
  ∧ is_Some (result !! "actual_response")
  ∧ (∃ tr p, result !! "test_result" = Some (VDict tr)
             ∧ tr !! "passed" = Some (VBool p))
  ∧ ∀ k, k ≠ "actual_status_code" → k ≠ "actual_response" → k ≠ "test_result" →
         result !! k = case !! k.

(** * Properties *)

(** ** Loops *)

Lemma res_fold_app {A B : Type} (body : B -> A -> res B) (acc : B) (xs ys : list A) :
  res_fold body acc (xs ++ ys) = res_bind (res_fold body acc xs) (fun acc' => res_fold body acc' ys).
Proof.
  revert acc. induction xs as [|x xs IH]; intros acc; simpl; [done|].
  destruct (body acc x) as [e|acc']; simpl; [done|]. apply IH.
Qed.

(** A loop whose body cannot raise is a plain fold. *)
Lemma res_fold_total {A B : Type} (body : B -> A -> res B) (f : B -> A -> B)
    (xs : list A) (acc : B) :
  (∀ b x, x ∈ xs → body b x = inr (f b x)) →
  res_fold body acc xs = inr (foldl f acc xs).
Proof.
  revert acc. induction xs as [|x xs IH]; intros acc Hbody; simpl; [done|].
  rewrite Hbody by left. simpl. apply IH. intros b y Hy. apply Hbody. by right.
Qed.

(** An invariant carried through a loop that returns. *)
Lemma res_fold_inv {A B : Type} (P : B -> Prop) (body : B -> A -> res B)
    (xs : list A) (acc out : B) :
  P acc →
  (∀ b x b', x ∈ xs → P b → body b x = inr b' → P b') →
  res_fold body acc xs = inr out → P out.
Proof.
  revert acc. induction xs as [|x xs IH]; intros acc Hacc Hstep; simpl.
  - by intros [= <-].
  - destruct (body acc x) as [e|acc'] eqn:Hb; simpl; [done|].
    apply IH.
    + eapply Hstep; [left | exact Hacc | exact Hb].
    + intros b y b' Hy. apply Hstep. by right.
Qed.

Lemma st_bind_inr {S A B : Type} (m : st S A) (k : A -> st S B) (s s' : S) (a : A) :
  m s = (inr a, s') → st_bind m k s = k a s'.
Proof. unfold st_bind. by intros ->. Qed.

Lemma st_bind_inl {S A B : Type} (m : st S A) (k : A -> st S B) (s s' : S) (e : exn) :
  m s = (inl e, s') → st_bind m k s = (inl e, s').
Proof. unfold st_bind. by intros ->. Qed.

Lemma st_fold_inv {S A B : Type} (P : B -> Prop) (body : B -> A -> st S B)
    (xs : list A) (acc out : B) (s s' : S) :
  P acc →
  (∀ b x b' t t', x ∈ xs → P b → body b x t = (inr b', t') → P b') →
  st_fold body acc xs s = (inr out, s') → P out.
Proof.
  revert acc s. induction xs as [|x xs IH]; intros acc s Hacc Hstep; simpl.
  - unfold st_ret. by intros [= <- _].
  - unfold st_bind. destruct (body acc x s) as [[e|acc'] s1] eqn:Hb; [done|].
    apply IH.
    + eapply Hstep; [left | exact Hacc | exact Hb].
    + intros b y b' t t' Hy. apply Hstep. by right.
Qed.

(** ** Schema extraction *)

(** The example of an extracted field is the one the chain computes from
    the field's name, its final type and its declared default. *)
Lemma process_property_example (required : value) (field_name : string)
    (field_info : value) (spec : FieldSpec) :
  process_property required field_name field_info = inr spec →
  fs_example spec = synthesize_example field_name (fs_type spec) (fs_default spec).
Proof.
  unfold process_property.
  destruct field_info as [| | | | |info]; try discriminate.
  destruct (contains field_name required) as [e|req]; simpl; [discriminate|].
  destruct (info !! "anyOf") as [any_of|]; simpl.
  - destruct (iterate any_of) as [e|members]; simpl; [discriminate|].
    destruct (any_of_types members) as [e|tys]; simpl; [discriminate|].
    destruct (any_of_format (info !! "format") members) as [e|fmt]; simpl; [discriminate|].
    by intros [= <-].
  - by intros [= <-].
Qed.

(** Every entry of the extracted sample data is the processed form of a
    property of the schema. *)
Lemma process_properties_lookup (required : value) (properties : gmap string value)
    (sample_data : gmap string FieldSpec) (field_name : string) (spec : FieldSpec) :
  process_properties required properties = inr sample_data →
  sample_data !! field_name = Some spec →
  ∃ field_info, properties !! field_name = Some field_info
                ∧ process_property required field_name field_info = inr spec.
Proof.
  unfold process_properties. intros Hrun. revert field_name spec. revert Hrun.
  apply (res_fold_inv
           (fun acc : gmap string FieldSpec =>
              ∀ field_name spec, acc !! field_name = Some spec →
                ∃ field_info, properties !! field_name = Some field_info
                              ∧ process_property required field_name field_info
                                = inr spec)).
  - intros field_name spec. by rewrite lookup_empty.
  - intros acc [name info] acc' Hin%elem_of_map_to_list Hacc.
    destruct (process_property required name info) as [e|field_data] eqn:Hp;
      simpl; [done|].
    intros [= <-] field_name spec. destruct (decide (field_name = name)) as [->|Hne].
    + rewrite lookup_insert_eq. intros [= <-]. by exists info.
    + rewrite lookup_insert_ne by done. apply Hacc.
Qed.

(** The default of an extracted field is the [default] entry of its
    property. *)
Lemma process_property_default (required : value) (field_name : string)
    (field_info : value) (spec : FieldSpec) :
  process_property required field_name field_info = inr spec →
  ∃ info, field_info = VDict info ∧ fs_default spec = info !! "default".
Proof.
  unfold process_property.
  destruct field_info as [| | | | |info]; try discriminate.
  intros Hspec. exists info. split; [done|]. revert Hspec.
  destruct (contains field_name required) as [e|req]; simpl; [discriminate|].
  destruct (info !! "anyOf") as [any_of|]; simpl.
  - destruct (iterate any_of) as [e|members]; simpl; [discriminate|].
    destruct (any_of_types members) as [e|tys]; simpl; [discriminate|].
    destruct (any_of_format (info !! "format") members) as [e|fmt]; simpl; [discriminate|].
    by intros [= <-].
  - by intros [= <-].
Qed.

(** C7 (as amended): after schema extraction a field has an example, a
    string, when its name is "email" (in any case), its name contains
    "password", or its type is "string".  A field of type "boolean" outside
    those names has as example the default declared by its property,
    whatever that is, and [True] when the property declares none; so its
    example is null exactly when the declared default is null.  Every other
    field (integer, object, array, a union of types, ...) has no
    example. *)
Theorem example_synthesis_by_rule (required : value) (field_name : string)
    (field_info : value) (spec : FieldSpec) :
  process_property required field_name field_info = inr spec →
  let named := bool_decide (lower field_name = "email")
               || is_substring "password" (lower field_name) in
  (named || eq_str (fs_type spec) "string" = true →
     ∃ s, fs_example spec = Some (VStr s)) ∧
  (named = false → fs_type spec = VStr "boolean" →
     ∃ info, field_info = VDict info
             ∧ fs_default spec = info !! "default"
             ∧ fs_example spec = Some (default (VBool true) (info !! "default"))
             ∧ (∀ declared, info !! "default" = Some declared →
                            fs_example spec = Some declared)
             ∧ (info !! "default" = None → fs_example spec = Some (VBool true))
             ∧ (fs_example spec = Some VNone ↔ info !! "default" = Some VNone)) ∧
  (named = false → fs_type spec ≠ VStr "string" → fs_type spec ≠ VStr "boolean" →
     fs_example spec = None).
Proof.
  intros Hspec named.
  destruct (process_property_default _ _ _ _ Hspec) as (info & Hinfo & Hdefault).
  apply process_property_example in Hspec.
  rewrite Hspec. subst named. unfold synthesize_example.
  destruct (bool_decide (lower field_name = "email")); simpl.
  { split; [eauto|]. split; intros; discriminate. }
  destruct (is_substring "password" (lower field_name)); simpl.
  { split; [eauto|]. split; intros; discriminate. }
  split; [|split].
  - intros ->. eauto.
  - intros _ ->. simpl. exists info. rewrite Hdefault.
    split; [done|]. split; [done|]. split; [done|].
    destruct (info !! "default") as [v|]; simpl.
    + split; [by intros declared [= <-]|]. split; [done|].
      split; [by intros [= ->]|by intros [= ->]].
    + split; [done|]. split; [done|]. split; discriminate.
  - intros _ Hs Hb.
    destruct (fs_type spec) as [| | |t| |]; simpl; try done.
    rewrite !bool_decide_eq_false_2; [done| |]; congruence.
Qed.

(** ** Default body *)

(** Keys of a body built by a loop that writes [item.1] when [pick] finds
    a value for the item. *)
Lemma dom_conditional_inserts {A : Type} (pick : string -> A -> option value)
    (step : gmap string value -> string * A -> gmap string value)
    (items : list (string * A)) (body : gmap string value) (field : string) :
  (∀ b it, step b it = match pick it.1 it.2 with
                       | Some v => <[it.1 := v]> b
                       | None => b
                       end) →
  field ∈ dom (foldl step body items) ↔
  field ∈ dom body ∨ ∃ a, (field, a) ∈ items ∧ is_Some (pick field a).
Proof.
  intros Hstep. revert body.
  induction items as [|[k a] items IH]; intros body; simpl.
  - split; [by left|]. intros [H|(a & H & _)]; [done|]. by apply elem_of_nil in H.
  - rewrite IH, Hstep. simpl. split.
    + intros [H|(a' & Hin & Hp)].
      * destruct (pick k a) as [v|] eqn:Hk; [|by left].
        rewrite dom_insert in H. apply elem_of_union in H as [H|H]; [|by left].
        apply elem_of_singleton in H as ->. right. exists a. split; [left|by rewrite Hk].
      * right. exists a'. split; [by right|done].
    + intros [H|(a' & Hin & Hp)].
      * left. destruct (pick k a); [|done].
        rewrite dom_insert. apply elem_of_union. by right.
      * apply elem_of_cons in Hin as [[= -> ->]|Hin].
        -- left. destruct Hp as [v ->].
           rewrite dom_insert. apply elem_of_union. left. by apply elem_of_singleton.
        -- right. eauto.
Qed.

(** The keys of the default body: the required fields for which the chain
    finds a value, and the optional fields that declare a default. *)
Lemma default_body_keys (requirements : RequirementsModel) (field : string) :
  field ∈ dom (get_default_request_body requirements) ↔
  (∃ info, required_fields requirements !! field = Some info
           ∧ is_Some (required_value field info)) ∨
  (∃ info, optional_fields requirements !! field = Some info
           ∧ is_Some (fs_default info)).
Proof.
  unfold get_default_request_body.
  rewrite (dom_conditional_inserts (fun _ info => fs_default info)) by done.
  rewrite (dom_conditional_inserts required_value) by done.
  rewrite dom_empty. setoid_rewrite elem_of_map_to_list.
  split.
  - intros [[H|H]|H]; [set_solver|by left|by right].
  - intros [H|H]; [left; by right|by right].
Qed.

(** A required field is never lost when it carries an example, has the
    email format, a password name, or one of the types string, boolean,
    integer. *)
Lemma default_body_has_required (requirements : RequirementsModel)
    (field : string) (info : FieldSpec) :
  required_fields requirements !! field = Some info →
  is_Some (fs_example info) ∨ fs_format info = Some (VStr "email")
  ∨ is_substring "password" (lower field) = true
  ∨ fs_type info = VStr "string" ∨ fs_type info = VStr "boolean"
  ∨ fs_type info = VStr "integer" →
  field ∈ dom (get_default_request_body requirements).
Proof.
  intros Hreq Hcase. apply default_body_keys. left. exists info. split; [done|].
  unfold required_value.
  destruct (fs_example info) as [ex|]; [by eexists|].
  destruct Hcase as [Hex|[Hfmt|[Hpw|Hty]]].
  { by destruct Hex. }
  { rewrite Hfmt. by eexists. }
  { rewrite Hpw.
    destruct (fs_format info) as [f|]; [destruct (eq_str f "email")|]; by eexists. }
  assert (∃ t, fs_type info = VStr t ∧ (t = "string" ∨ t = "boolean" ∨ t = "integer"))
    as (t & -> & Ht) by (destruct Hty as [-> | [-> | -> ] ]; eauto).
  destruct (fs_format info) as [f|]; [destruct (eq_str f "email"); [by eexists|]|];
    (destruct (is_substring "password" (lower field)); [by eexists|]);
    simpl; destruct Ht as [-> | [-> | -> ] ]; by eexists.
Qed.

(** ** Single-field pass *)

(** The pass returns exactly when every selected field has an entry in
    [field_variations], and then appends one case per field and value, in
    order. *)
Lemma single_field_pass_spec (default_body : gmap string value)
    (selected_fields : list string) (field_variations : gmap string (list value))
    (acc cases : list (gmap string value)) :
  single_field_pass default_body selected_fields field_variations acc = inr cases ↔
  (∀ field, field ∈ selected_fields → is_Some (field_variations !! field)) ∧
  cases = acc ++ (field ← selected_fields;
                  single_field_case default_body field
                    <$> default [] (field_variations !! field)).
Proof.
  unfold single_field_pass. revert acc.
  induction selected_fields as [|f fs IH]; intros acc; simpl.
  - rewrite app_nil_r. split.
    + intros [= <-]. split; [|done]. intros field H. by apply elem_of_nil in H.
    + by intros [_ ->].
  - unfold variations_of at 1. destruct (field_variations !! f) as [vs|] eqn:Hf; simpl.
    + rewrite IH, <- app_assoc. split.
      * intros [Hall ->]. split; [|done].
        intros field [->|H]%elem_of_cons; [by rewrite Hf|by apply Hall].
      * intros [Hall ->]. split; [|done]. intros field H. apply Hall. by right.
    + split; [done|]. intros [Hall _].
      destruct (Hall f) as [vs Hvs]; [left|]. by rewrite Hf in Hvs.
Qed.

Lemma single_field_case_status (default_body : gmap string value)
    (field : string) (v : value) :
  single_field_case default_body field v !! "expected_status_code"
  = Some (VInt (if eq_str v "" then 400 else 200)).
Proof. unfold single_field_case. by simplify_map_eq. Qed.

Lemma eq_str_true (v : value) (s : string) : eq_str v s = true ↔ v = VStr s.
Proof.
  destruct v; simpl; try (split; [discriminate|congruence]).
  rewrite bool_decide_eq_true. split; congruence.
Qed.

(** C2: the single-field pass emits, for every selected field and every one
    of its variation values, the case built for that field and value, and
    nothing else; the case built for a value expects status 400 when the
    value is the empty string and 200 for every other value. *)
Theorem single_field_expected_status (default_body : gmap string value)
    (selected_fields : list string) (field_variations : gmap string (list value))
    (cases : list (gmap string value)) :
  single_field_pass default_body selected_fields field_variations [] = inr cases →
  (∀ case, case ∈ cases ↔
     ∃ field variations v,
       field ∈ selected_fields ∧ field_variations !! field = Some variations
       ∧ v ∈ variations ∧ case = single_field_case default_body field v) ∧
  (∀ field v,
     (v = VStr "" →
        single_field_case default_body field v !! "expected_status_code"
        = Some (VInt 400)) ∧
     (v ≠ VStr "" →
        single_field_case default_body field v !! "expected_status_code"
        = Some (VInt 200))).
Proof.
  intros [Hall ->]%single_field_pass_spec. split.
  - intros case. simpl. rewrite list_elem_of_bind. split.
    + intros (field & Hcase & Hsel). destruct (Hall field Hsel) as [vs Hvs].
      rewrite Hvs in Hcase. simpl in Hcase.
      apply list_elem_of_fmap in Hcase as (v & -> & Hv). by exists field, vs, v.
    + intros (field & vs & v & Hsel & Hvs & Hv & ->). exists field. split; [|done].
      rewrite Hvs. simpl. apply list_elem_of_fmap. eauto.
  - intros field v. rewrite single_field_case_status. split.
    + by intros ->.
    + intros Hne. destruct (eq_str v "") eqn:Heq; [|done].
      by apply eq_str_true in Heq.
Qed.

(** ** Combination pass *)

Lemma combinations_length {A : Type} (l : list A) (r : nat) :
  length (combinations l r) = choose (length l) r.
Proof.
  revert r. induction l as [|x l IH]; intros [|r]; simpl; try done.
  by rewrite length_app, length_fmap, !IH.
Qed.

(** A combination only holds elements of the list it is drawn from. *)
Lemma combinations_elem {A : Type} (l : list A) (r : nat) (c : list A) (x : A) :
  c ∈ combinations l r → x ∈ c → x ∈ l.
Proof.
  revert r c. induction l as [|y l IH]; intros [|r] c; simpl.
  - intros ->%list_elem_of_singleton H. by apply elem_of_nil in H.
  - intros H. by apply elem_of_nil in H.
  - intros ->%list_elem_of_singleton H. by apply elem_of_nil in H.
  - intros [Hc|Hc]%elem_of_app Hx.
    + apply list_elem_of_fmap in Hc as (c' & -> & Hc').
      apply elem_of_cons in Hx as [->|Hx]; [left|right]. by eapply IH.
    + right. by eapply IH.
Qed.

Lemma choose_1 (n : nat) : choose n 1 = n.
Proof. induction n as [|n IH]; simpl; [done|]. destruct n; simpl in *; lia. Qed.

Lemma choose_2 (n : nat) : 2 * choose n 2 = n * (n - 1).
Proof.
  induction n as [|n IH]; [done|].
  change (choose (S n) 2) with (choose n 1 + choose n 2).
  rewrite choose_1. destruct n; [done|].
  replace (S (S n) - 1) with (S n) by lia. replace (S n - 1) with n in IH by lia. nia.
Qed.

Lemma choose_3 (n : nat) : 6 * choose n 3 = n * (n - 1) * (n - 2).
Proof.
  induction n as [|n IH]; [done|].
  change (choose (S n) 3) with (choose n 2 + choose n 3).
  pose proof (choose_2 n) as H2. destruct n as [|[|n]]; [done|done|].
  replace (S (S (S n)) - 1) with (S (S n)) by lia.
  replace (S (S (S n)) - 2) with (S n) by lia.
  replace (S (S n) - 1) with (S n) in * by lia.
  replace (S (S n) - 2) with n in IH by lia. nia.
Qed.

Lemma combination_sizes_cases (selected_fields : list string) :
  (length selected_fields < 2 ∧ combination_sizes selected_fields = []) ∨
  (length selected_fields = 2 ∧ combination_sizes selected_fields = [2]) ∨
  (3 ≤ length selected_fields ∧ combination_sizes selected_fields = [2; 3]).
Proof.
  unfold combination_sizes.
  destruct selected_fields as [|a [|b [|c [|d rest]]]]; simpl.
  - left. split; [lia|done].
  - left. split; [lia|done].
  - right. left. done.
  - right. right. split; [lia|done].
  - right. right. split; [lia|done].
Qed.

(** The number of cases the pass sets out to build. *)
Lemma combination_rounds_length (selected_fields : list string) :
  length (combination_rounds selected_fields)
  = 3 * (choose (length selected_fields) 2 + choose (length selected_fields) 3).
Proof.
  unfold combination_rounds.
  assert (∀ r, length (fields_combo ← combinations selected_fields r;
                       replicate 3 fields_combo)
               = 3 * choose (length selected_fields) r) as Hr.
  { intros r. rewrite <- combinations_length.
    induction (combinations selected_fields r) as [|c cs IH]; [done|].
    rewrite bind_cons, length_app, length_replicate, IH. simpl. lia. }
  destruct (combination_sizes_cases selected_fields) as [[Hk ->]|[[Hk ->]|[Hk ->]]]; simpl.
  - destruct selected_fields as [|a [|b l]]; simpl in *; [done|done|lia].
  - rewrite app_nil_r, Hr, Hk. simpl. lia.
  - rewrite app_nil_r, length_app, !Hr. lia.
Qed.

Lemma combination_rounds_elem (selected_fields fields_combo : list string)
    (field : string) :
  fields_combo ∈ combination_rounds selected_fields → field ∈ fields_combo →
  field ∈ selected_fields.
Proof.
  unfold combination_rounds.
  intros (r & (c & Hrep & Hc)%list_elem_of_bind & _)%list_elem_of_bind Hf.
  apply elem_of_replicate_inv in Hrep as ->. by eapply combinations_elem.
Qed.

Lemma choice_nonempty (seq : list value) (g : rng) :
  seq ≠ [] → ∃ v g', choice seq g = (inr v, g') ∧ v ∈ seq.
Proof.
  destruct seq as [|x seq]; [done|]. intros _. unfold choice, st_bind, draw, st_ret.
  destruct g as [|n g]; eexists _, _; (split; [reflexivity|]);
    apply list_elem_of_In, nth_In, Nat.mod_upper_bound; simpl; lia.
Qed.

(** A loop that appends one built item per element, when every build returns. *)
Lemma st_fold_append_total {S A C : Type} (mk : A -> st S C) (P : C -> Prop)
    (xs : list A) (acc : list C) (s : S) :
  (∀ x t, x ∈ xs → ∃ c t', mk x t = (inr c, t') ∧ P c) →
  ∃ new s',
    st_fold (fun acc x => st_bind (mk x) (fun c => st_ret (acc ++ [c]))) acc xs s
    = (inr (acc ++ new), s')
    ∧ length new = length xs ∧ Forall P new.
Proof.
  revert acc s. induction xs as [|x xs IH]; intros acc s Hmk; simpl.
  - exists [], s. by rewrite app_nil_r.
  - destruct (Hmk x s) as (c & s1 & Hc & HP); [left|].
    destruct (IH (acc ++ [c]) s1) as (new & s2 & Hnew & Hlen & Hall).
    { intros y t Hy. apply Hmk. by right. }
    exists (c :: new), s2.
    rewrite (st_bind_inr _ _ s s1 (acc ++ [c])) by by rewrite (st_bind_inr _ _ s s1 c).
    rewrite Hnew, <- app_assoc. simpl. split; [done|]. split; [by rewrite Hlen|].
    by constructor.
Qed.

(** What the inner loop leaves in the body: the keys it started from, and
    new values only under the fields of the combination. *)
Lemma combination_body_frame (default_body : gmap string value)
    (field_variations : gmap string (list value)) (fields_combo : list string)
    (g g' : rng) (body : gmap string value) :
  combination_body default_body field_variations fields_combo g = (inr body, g') →
  dom default_body ⊆ dom body ∧
  ∀ k, k ∉ fields_combo → body !! k = default_body !! k.
Proof.
  unfold combination_body.
  apply (st_fold_inv (fun b => dom default_body ⊆ dom b ∧
                               ∀ k, k ∉ fields_combo → b !! k = default_body !! k)).
  - done.
  - intros b f b' t t' Hf [Hdom Hframe]. unfold st_bind, st_lift, st_ret.
    destruct (variations_of field_variations f) as [e|vs]; [done|].
    destruct (choice vs t) as [[e|v] t1]; [done|]. intros [= <- _]. split.
    + rewrite dom_insert. set_solver.
    + intros k Hk. rewrite lookup_insert_ne; [by apply Hframe|]. by intros ->.
Qed.

Lemma combination_body_total (default_body : gmap string value)
    (field_variations : gmap string (list value)) (fields_combo : list string)
    (g : rng) :
  (∀ field, field ∈ fields_combo →
     ∃ variations, field_variations !! field = Some variations ∧ variations ≠ []) →
  ∃ body g',
    combination_body default_body field_variations fields_combo g = (inr body, g').
Proof.
  unfold combination_body. generalize default_body as body0. revert g.
  induction fields_combo as [|f fs IH]; intros g body0 Hvs; simpl.
  - by eexists _, _.
  - destruct (Hvs f) as (vs & Hf & Hne); [left|].
    destruct (choice_nonempty vs g Hne) as (v & g1 & Hv & _).
    rewrite (st_bind_inr _ _ g g1 (<[f := v]> body0)).
    + apply IH. intros field H. apply Hvs. by right.
    + rewrite (st_bind_inr _ _ g g vs) by (unfold st_lift, variations_of; by rewrite Hf).
      by rewrite (st_bind_inr _ _ g g1 v).
Qed.

Lemma choice_elem (seq : list value) (g g' : rng) (v : value) :
  choice seq g = (inr v, g') → v ∈ seq.
Proof.
  destruct seq as [|x seq]; [done|]. intros Hv.
  destruct (choice_nonempty (x :: seq) g) as (v' & g'' & Hv' & Hin); [done|].
  congruence.
Qed.

Lemma combination_body_values (field_variations : gmap string (list value))
    (fields_combo : list string) (start body : gmap string value) (g g' : rng) :
  combination_body start field_variations fields_combo g = (inr body, g') →
  ∀ k, (k ∈ fields_combo →
        ∃ variations v, field_variations !! k = Some variations
                        ∧ v ∈ variations ∧ body !! k = Some v)
       ∧ (k ∉ fields_combo → body !! k = start !! k).
Proof.
  unfold combination_body. revert start g.
  induction fields_combo as [|f fs IH]; intros start g; cbn [st_fold].
  - unfold st_ret. intros [= <- _] k. split; [|done].
    intros H. by apply elem_of_nil in H.
  - unfold st_bind at 1. unfold st_bind at 1. unfold st_lift, variations_of.
    destruct (field_variations !! f) as [vs|] eqn:Hf; [|done].
    unfold st_bind at 1. destruct (choice vs g) as [[e|v] g1] eqn:Hv; [done|].
    unfold st_ret at 1. intros Hrest k.
    destruct (IH _ _ Hrest k) as [Hin Hout]. split.
    + intros Hk. destruct (decide (k ∈ fs)) as [Hfs|Hfs]; [by apply Hin|].
      apply elem_of_cons in Hk as [->|Hk]; [|done].
      exists vs, v. rewrite (Hout Hfs), lookup_insert_eq.
      split; [done|]. split; [by eapply choice_elem|done].
    + intros Hk. rewrite Hout by (intros ?; apply Hk; by right).
      apply lookup_insert_ne. intros ->. apply Hk. left.
Qed.

Lemma combination_case_status (default_body : gmap string value)
    (field_variations : gmap string (list value)) (fields_combo : list string)
    (g g' : rng) (case : gmap string value) :
  combination_case default_body field_variations fields_combo g = (inr case, g') →
  case !! "expected_status_code" = Some (VInt 200) ∧
  ∃ body, case !! "data" = Some (VDict body)
          ∧ combination_body default_body field_variations fields_combo g
            = (inr body, g').
Proof.
  unfold combination_case, st_bind, st_ret.
  destruct (combination_body _ _ _ g) as [[e|body] g1]; [done|].
  intros [= <- <-]. split; [by simplify_map_eq|]. exists body. by simplify_map_eq.
Qed.

(** C3: when every selected field has a non-empty variation list, the
    combination pass returns and adds exactly 3 × (C(k,2) + C(k,3)) cases
    for k selected fields, that is (k+1)·k·(k-1)/2 of them, none when
    k < 2; every added case expects status 200. *)
Theorem combination_pass_count (default_body : gmap string value)
    (selected_fields : list string) (field_variations : gmap string (list value))
    (acc : list (gmap string value)) (g : rng) :
  (∀ field, field ∈ selected_fields →
     ∃ variations, field_variations !! field = Some variations ∧ variations ≠ []) →
  let k := length selected_fields in
  ∃ new g',
    combination_pass default_body selected_fields field_variations acc g
    = (inr (acc ++ new), g')
    ∧ length new = 3 * (choose k 2 + choose k 3)
    ∧ 2 * length new = (k + 1) * k * (k - 1)
    ∧ (k < 2 → new = [])
    ∧ Forall (fun case => case !! "expected_status_code" = Some (VInt 200)) new.
Proof.
  intros Hvs k. unfold combination_pass.
  destruct (st_fold_append_total
              (combination_case default_body field_variations)
              (fun case => case !! "expected_status_code" = Some (VInt 200))
              (combination_rounds selected_fields) acc g)
    as (new & g' & Hrun & Hlen & Hall).
  { intros combo t Hcombo.
    destruct (combination_body_total default_body field_variations combo t)
      as (body & t' & Hbody).
    { intros field Hf. apply Hvs. by eapply combination_rounds_elem. }
    unfold combination_case, st_bind, st_ret. rewrite Hbody.
    eexists _, _. split; [reflexivity|]. by simplify_map_eq. }
  exists new, g'. rewrite combination_rounds_length in Hlen. fold k in Hlen.
  split; [exact Hrun|]. split; [exact Hlen|].
  pose proof (choose_2 k) as H2. pose proof (choose_3 k) as H3.
  split; [|split; [|exact Hall]].
  - rewrite Hlen. destruct k as [|[|k']]; [done|done|].
    replace (S (S k') - 1) with (S k') in * by lia.
    replace (S (S k') - 2) with k' in * by lia. nia.
  - intros Hk. apply nil_length_inv. rewrite Hlen.
    destruct k as [|[|k']]; [done|done|lia].
Qed.

(** ** Completing the request bodies *)

(** The loop over the selected fields, for a case whose [data] is a mapping. *)
Lemma complete_fields_dict (default_body : gmap string value)
    (selected_fields : list string) (case data : gmap string value) :
  case !! "data" = Some (VDict data) →
  complete_fields default_body selected_fields (VDict case)
  = inr (foldl (fun body field =>
                  match data !! field with
                  | Some v => <[field := v]> body
                  | None => body
                  end) default_body selected_fields).
Proof.
  intros Hdata. unfold complete_fields. apply res_fold_total.
  intros body field _. simpl. rewrite Hdata. simpl.
  by destruct (data !! field) as [v|].
Qed.

Lemma merged_lookup (data : gmap string value) (selected_fields : list string)
    (body : gmap string value) (k : string) :
  foldl (fun body field =>
           match data !! field with
           | Some v => <[field := v]> body
           | None => body
           end) body selected_fields !! k
  = if decide (k ∈ selected_fields)
    then match data !! k with Some v => Some v | None => body !! k end
    else body !! k.
Proof.
  revert body. induction selected_fields as [|f fs IH]; intros body; cbn [foldl].
  - destruct (decide (k ∈ [])) as [H|H]; [by apply elem_of_nil in H|done].
  - rewrite IH.
    assert (k ≠ f ∨ data !! k = None →
            (match data !! f with
             | Some v => <[f := v]> body
             | None => body
             end) !! k = body !! k) as Hsame.
    { intros [Hne|Hnone].
      - destruct (data !! f); [by rewrite lookup_insert_ne|done].
      - destruct (decide (k = f)) as [->|Hne]; [by rewrite Hnone|].
        destruct (data !! f); [by rewrite lookup_insert_ne|done]. }
    destruct (decide (k ∈ fs)) as [Hin|Hout];
      destruct (decide (k ∈ f :: fs)) as [Hin'|Hout'].
    + destruct (data !! k) eqn:Hk; [done|]. apply Hsame. by right.
    + destruct Hout'. by right.
    + apply elem_of_cons in Hin' as [->|Hin']; [|done].
      destruct (data !! f); [by rewrite lookup_insert_eq|done].
    + apply Hsame. left. intros ->. apply Hout'. left.
Qed.

Lemma complete_cases_spec (default_body : gmap string value)
    (selected_fields : list string) (all_test_cases : list value)
    (cases : list (gmap string value)) :
  complete_cases default_body selected_fields all_test_cases = inr cases →
  Forall2 (fun case case' =>
             complete_case default_body selected_fields case = inr case')
          all_test_cases cases.
Proof.
  unfold complete_cases.
  assert (∀ done,
            res_fold (fun done case =>
                        res_bind (complete_case default_body selected_fields case)
                                 (fun case' => inr (done ++ [case'])))
                     done all_test_cases = inr cases →
            ∃ new, cases = done ++ new
                   ∧ Forall2 (fun case case' =>
                                complete_case default_body selected_fields case
                                = inr case') all_test_cases new) as H.
  { induction all_test_cases as [|case rest IH]; intros done; simpl.
    - intros [= <-]. exists []. by rewrite app_nil_r.
    - destruct (complete_case default_body selected_fields case) as [e|case'] eqn:Hc;
        simpl; [done|].
      intros (new & -> & Hnew)%IH. exists (case' :: new).
      rewrite <- app_assoc. split; [done|]. by constructor. }
  intros (new & -> & Hnew)%H. done.
Qed.

(** ** The test builder as a whole *)

Lemma built_from_mono (default_body : gmap string value)
    (targets targets' : list string) (case : gmap string value) :
  (∀ field, field ∈ targets → field ∈ targets') →
  built_from default_body targets case → built_from default_body targets' case.
Proof.
  intros Hsub (body & Hdata & Hdom & Hframe). exists body.
  split; [done|]. split; [done|]. intros k Hk. apply Hframe. intros Hin. by apply Hk, Hsub.
Qed.

Lemma single_field_case_built (default_body : gmap string value)
    (field : string) (v : value) :
  built_from default_body [field] (single_field_case default_body field v)
  ∧ carries (single_field_case default_body field v) field v.
Proof.
  assert (single_field_case default_body field v !! "data"
          = Some (VDict (<[field := v]> default_body))) as Hdata
    by (unfold single_field_case; by simplify_map_eq).
  split.
  - exists (<[field := v]> default_body). split; [done|]. split.
    + rewrite dom_insert. set_solver.
    + intros k Hk. apply lookup_insert_ne. intros ->. apply Hk. left.
  - exists (<[field := v]> default_body). split; [done|]. apply lookup_insert_eq.
Qed.

Lemma combination_case_built (default_body : gmap string value)
    (field_variations : gmap string (list value)) (fields_combo : list string)
    (g g' : rng) (case : gmap string value) :
  combination_case default_body field_variations fields_combo g = (inr case, g') →
  case !! "name" = Some (VStr ("Test combination of " +:+ join ", " fields_combo))
  ∧ built_from default_body fields_combo case
  ∧ ∀ field, field ∈ fields_combo →
      ∃ variations v, field_variations !! field = Some variations
                      ∧ v ∈ variations ∧ carries case field v.
Proof.
  intros Hcase. split.
  - revert Hcase. unfold combination_case, st_bind, st_ret.
    destruct (combination_body _ _ _ g) as [[e|body] g1]; [done|].
    intros [= <- _]. by simplify_map_eq.
  - apply combination_case_status in Hcase as (_ & body & Hdata & Hbody). split.
    + apply combination_body_frame in Hbody as [Hdom Hframe]. by exists body.
    + intros field Hf.
      destruct (proj1 (combination_body_values _ _ _ _ _ _ Hbody field) Hf)
        as (vs & v & Hvs & Hv & Hlookup).
      exists vs, v. split; [done|]. split; [done|]. by exists body.
Qed.

(** A loop that appends one made object per element returns what it
    started from followed by the objects, one per element, in order. *)
Lemma st_fold_append_inv {S A C : Type} (mk : A -> st S C) (xs : list A)
    (acc out : list C) (s s' : S) :
  st_fold (fun acc x => st_bind (mk x) (fun c => st_ret (acc ++ [c]))) acc xs s
  = (inr out, s') →
  ∃ new, out = acc ++ new
         ∧ Forall2 (fun x c => ∃ t t', mk x t = (inr c, t')) xs new.
Proof.
  revert acc s. induction xs as [|x xs IH]; intros acc s; cbn [st_fold].
  - unfold st_ret. intros [= <- _]. exists []. by rewrite app_nil_r.
  - unfold st_bind at 1. unfold st_bind at 1.
    destruct (mk x s) as [[e|c] s1] eqn:Hc; [done|]. unfold st_ret at 1.
    intros (new & -> & Hnew)%IH. exists (c :: new). rewrite <- app_assoc.
    split; [done|]. constructor; [by exists s, s1|done].
Qed.

(** The builder returns the cases of the single-field pass followed by
    one case per round of the combination pass. *)
Lemma generate_combination_test_cases_parts (default_body : gmap string value)
    (selected_fields : list string) (field_variations : gmap string (list value))
    (g g' : rng) (automated : list (gmap string value)) :
  generate_combination_test_cases default_body selected_fields field_variations g
  = (inr automated, g') →
  ∃ singles combos,
    automated = singles ++ combos
    ∧ Forall (fun case =>
                ∃ field v, field ∈ selected_fields
                           ∧ case = single_field_case default_body field v
                           ∧ built_from default_body [field] case
                           ∧ carries case field v) singles
    ∧ Forall2 (fun fields_combo case =>
                 case !! "name"
                 = Some (VStr ("Test combination of " +:+ join ", " fields_combo))
                 ∧ built_from default_body fields_combo case
                 ∧ ∀ field, field ∈ fields_combo →
                     ∃ variations v, field_variations !! field = Some variations
                                     ∧ v ∈ variations ∧ carries case field v)
              (combination_rounds selected_fields) combos.
Proof.
  unfold generate_combination_test_cases, st_bind, st_lift.
  destruct (single_field_pass _ _ _ []) as [e|singles] eqn:Hsingle; [done|].
  apply single_field_pass_spec in Hsingle as [Hall ->]. simpl.
  unfold combination_pass. intros (combos & -> & Hcombos)%st_fold_append_inv.
  eexists _, combos. split; [reflexivity|]. split.
  - apply Forall_forall. intros case (field & Hcase & Hsel)%list_elem_of_bind.
    apply list_elem_of_fmap in Hcase as (v & -> & _).
    exists field, v. split; [done|]. split; [done|]. apply single_field_case_built.
  - eapply Forall2_impl; [exact Hcombos|].
    intros combo case (t & t' & Hcase). by eapply combination_case_built.
Qed.

Lemma generate_combination_test_cases_built (default_body : gmap string value)
    (selected_fields : list string) (field_variations : gmap string (list value))
    (g g' : rng) (cases : list (gmap string value)) :
  generate_combination_test_cases default_body selected_fields field_variations g
  = (inr cases, g') →
  Forall (built_from default_body selected_fields) cases.
Proof.
  intros (singles & combos & -> & Hsingles & Hcombos)
         %generate_combination_test_cases_parts.
  apply Forall_app. split.
  - eapply Forall_impl; [exact Hsingles|].
    intros case (field & v & Hsel & _ & Hbuilt & _).
    eapply built_from_mono; [|exact Hbuilt]. by intros f ->%list_elem_of_singleton.
  - apply Forall_forall. intros case Hin.
    apply list_elem_of_lookup in Hin as [i Hi].
    destruct (Forall2_lookup_r _ _ _ _ _ Hcombos Hi) as (combo & Hcombo & _ & Hbuilt & _).
    eapply built_from_mono; [|exact Hbuilt].
    intros field Hf. eapply combination_rounds_elem; [|exact Hf].
    by eapply list_elem_of_lookup_2.
Qed.

(** The loop that completes the request bodies leaves a case built for
    selected fields as it is. *)
Lemma complete_case_built (default_body : gmap string value)
    (selected_fields : list string) (case : gmap string value) :
  built_from default_body selected_fields case →
  complete_case default_body selected_fields (VDict case) = inr case.
Proof.
  intros (body & Hdata & Hdom & Hframe).
  unfold complete_case.
  assert (contains "data" (VDict case) = inr true) as ->.
  { simpl. by rewrite bool_decide_eq_true_2 by by eexists. }
  cbn [res_bind].
  rewrite (complete_fields_dict _ _ _ body Hdata). cbn [res_bind setitem].
  f_equal. apply insert_id. rewrite Hdata. do 2 f_equal.
  apply map_eq. intros k. rewrite merged_lookup.
  destruct (decide (k ∈ selected_fields)) as [Hk|Hk].
  - destruct (body !! k) as [v|] eqn:Hbk; [done|].
    destruct (default_body !! k) as [v|] eqn:Hdk; [|done].
    assert (k ∈ dom body) as [v' Hv']%elem_of_dom
      by (apply Hdom, elem_of_dom; by eexists).
    congruence.
  - by apply Hframe.
Qed.

(** The cases of the builder go through the completion loop unchanged. *)
Lemma complete_cases_built (default_body : gmap string value)
    (selected_fields : list string) (automated first : list (gmap string value)) :
  Forall (built_from default_body selected_fields) automated →
  Forall2 (fun case case' =>
             complete_case default_body selected_fields case = inr case')
          (VDict <$> automated) first →
  first = automated.
Proof.
  intros Hbuilt. revert first.
  induction Hbuilt as [|case automated Hcase _ IH]; intros first Hfirst.
  - by apply Forall2_nil_inv_l in Hfirst.
  - apply Forall2_cons_inv_l in Hfirst as (case' & first' & Hc & Hrest & ->).
    rewrite (complete_case_built _ _ _ Hcase) in Hc. injection Hc as <-.
    f_equal. by apply IH.
Qed.

Lemma declared_fields_elem (selected_fields : list string) (scenario : value)
    (field : string) :
  field ∈ declared_fields selected_fields scenario ↔
  field ∈ selected_fields ∧ declares scenario field = true.
Proof. unfold declared_fields. by rewrite !list_elem_of_In, filter_In. Qed.

(** A completed scenario has the default body as data, with other values
    only under the selected fields that the scenario declares. *)
Lemma complete_case_declared (default_body : gmap string value)
    (selected_fields : list string) (scenario : value) (case : gmap string value) :
  complete_case default_body selected_fields scenario = inr case →
  built_from default_body (declared_fields selected_fields scenario) case.
Proof.
  unfold complete_case.
  destruct (contains "data" scenario) as [e|has_data] eqn:Hhas; simpl; [done|].
  set (P := fun b : gmap string value =>
              dom default_body ⊆ dom b
              ∧ ∀ k, k ∉ declared_fields selected_fields scenario →
                     b !! k = default_body !! k).
  assert (∀ body, (if has_data then complete_fields default_body selected_fields scenario
                   else inr default_body) = inr body → P body) as Hbody.
  { intros body. destruct has_data; [|by intros [= <-]].
    unfold complete_fields. apply res_fold_inv; [done|].
    intros b f b' Hf [Hdom Hframe].
    destruct (getitem scenario "data") as [e|data] eqn:Hdata; simpl; [done|].
    destruct (contains f data) as [e|[]] eqn:Hdecl; simpl; [done| |by intros [= <-]].
    destruct (getitem data f) as [e|v]; simpl; [done|]. intros [= <-]. split.
    - rewrite dom_insert. set_solver.
    - intros k Hk. rewrite lookup_insert_ne; [by apply Hframe|]. intros ->.
      apply Hk, declared_fields_elem. split; [done|].
      unfold declares. by rewrite Hhas, Hdata, Hdecl. }
  destruct (if has_data then _ else _) as [e|body]; simpl; [done|].
  destruct (Hbody body eq_refl) as [Hdom Hframe].
  destruct scenario as [| | | | |d]; simpl; try done.
  intros [= <-]. exists body. by rewrite lookup_insert_eq.
Qed.

(** The loop over the selected fields leaves, under every selected field
    that the scenario declares, the value the scenario gives it. *)
Lemma complete_fields_values (selected_fields : list string) (scenario data : value)
    (acc body : gmap string value) (field : string) :
  getitem scenario "data" = inr data →
  res_fold (fun complete_body field =>
              res_bind (getitem scenario "data") (fun data =>
              res_bind (contains field data) (fun declared =>
              if declared : bool then
                res_bind (getitem scenario "data") (fun data =>
                res_bind (getitem data field) (fun v =>
                inr (<[field := v]> complete_body)))
              else inr complete_body)))
           acc selected_fields = inr body →
  (∃ v, getitem data field = inr v ∧ acc !! field = Some v)
  ∨ (field ∈ selected_fields ∧ contains field data = inr true) →
  ∃ v, getitem data field = inr v ∧ body !! field = Some v.
Proof.
  intros Hdata. rewrite Hdata. cbn [res_bind]. revert acc.
  induction selected_fields as [|f fs IH]; intros acc; cbn [res_fold].
  - intros [= <-] [Hacc|[Hin _]]; [done|by apply elem_of_nil in Hin].
  - destruct (contains f data) as [e|declared] eqn:Hdecl; cbn [res_bind]; [done|].
    destruct declared.
    + destruct (getitem data f) as [e|v] eqn:Hv; cbn [res_bind]; [done|].
      intros Hrest Hfield. apply (IH _ Hrest).
      destruct (decide (field = f)) as [->|Hne].
      * left. exists v. by rewrite lookup_insert_eq.
      * destruct Hfield as [(v' & Hv' & Hacc)|[Hin Hc]].
        -- left. exists v'. by rewrite lookup_insert_ne.
        -- right. apply elem_of_cons in Hin as [->|Hin]; done.
    + intros Hrest Hfield. apply (IH _ Hrest).
      destruct Hfield as [Hacc|[Hin Hc]]; [by left|].
      right. apply elem_of_cons in Hin as [->|Hin]; [congruence|done].
Qed.

Lemma complete_case_values (default_body : gmap string value)
    (selected_fields : list string) (scenario : value) (case : gmap string value)
    (field : string) :
  complete_case default_body selected_fields scenario = inr case →
  field ∈ declared_fields selected_fields scenario →
  ∃ v, declared_value scenario field = inr v ∧ carries case field v.
Proof.
  intros Hcase [Hsel Hdeclares]%declared_fields_elem. revert Hcase Hdeclares.
  unfold complete_case, declares, declared_value.
  destruct (contains "data" scenario) as [e|[]] eqn:Hhas; simpl; try done.
  destruct (getitem scenario "data") as [e|data] eqn:Hdata; [done|].
  destruct (contains field data) as [e|declared] eqn:Hdecl; [done|].
  destruct (complete_fields default_body selected_fields scenario) as [e|body] eqn:Hbody;
    simpl; [done|].
  intros Hset ->.
  destruct (complete_fields_values _ _ _ _ _ field Hdata Hbody) as (v & Hv & Hlookup);
    [by right|].
  exists v. split; [done|].
  destruct scenario as [| | | | |d]; simpl in Hset; try done.
  injection Hset as <-. exists body. by rewrite lookup_insert_eq.
Qed.

(** What a successful [generate_test_cases] went through. *)
Lemma generate_test_cases_Some (requirements : RequirementsModel)
    (reply : res string) (selected_fields : list string)
    (default_body : gmap string value) (g : rng)
    (cases : list (gmap string value)) :
  generate_test_cases requirements reply selected_fields default_body g = Some cases →
  ∃ field_variations g1 automated g2 content gpt,
    build_field_variations requirements selected_fields g = (inr field_variations, g1)
    ∧ generate_combination_test_cases default_body selected_fields field_variations g1
      = (inr automated, g2)
    ∧ reply = inr content
    ∧ json_loads content = inr (VList gpt)
    ∧ complete_cases default_body selected_fields ((VDict <$> automated) ++ gpt)
      = inr cases.
Proof.
  unfold generate_test_cases, generate_test_cases_try, st_bind, st_lift.
  destruct (build_field_variations _ _ g) as [[e|fv] g1] eqn:Hfv; [done|].
  destruct (generate_combination_test_cases _ _ fv g1) as [[e|automated] g2] eqn:Hauto;
    [done|].
  destruct reply as [e|content]; [done|].
  destruct (json_loads content) as [e|gpt] eqn:Hjson; [done|].
  destruct gpt as [| | | |gpt|]; simpl; try done.
  destruct (complete_cases _ _ _) as [e|cases'] eqn:Hcases; simpl; [done|].
  intros [= <-]. by exists fv, g1, automated, g2, content, gpt.
Qed.

(** C4: the builder returns the cases of the single-field pass followed
    by those of the combination pass.  A single-field case is the case
    built for one selected field and one value: its data is the default
    body with that value under that field and nothing else replaced.  The
    case of a combination round carries the names of its fields: its data
    is the default body with, under each of those fields, a value of the
    field's variation list, and nothing else replaced.  What
    [generate_test_cases] returns is these cases, as they are, followed by
    one case per advisory scenario: its data is the default body with,
    under each selected field that the scenario declares, the value the
    scenario gives it, and nothing else replaced.  So the data of every
    returned case has every key of the default body. *)
Theorem test_case_data_complete (requirements : RequirementsModel)
    (reply : res string) (selected_fields : list string)
    (default_body : gmap string value) (g : rng) :
  (∀ field_variations g0 g' automated,
     generate_combination_test_cases default_body selected_fields field_variations g0
     = (inr automated, g') →
     ∃ singles combos,
       automated = singles ++ combos
       ∧ Forall (fun case =>
                   ∃ field v, field ∈ selected_fields
                              ∧ case = single_field_case default_body field v
                              ∧ built_from default_body [field] case
                              ∧ carries case field v) singles
       ∧ Forall2 (fun fields_combo case =>
                    case !! "name"
                    = Some (VStr ("Test combination of " +:+ join ", " fields_combo))
                    ∧ built_from default_body fields_combo case
                    ∧ ∀ field, field ∈ fields_combo →
                        ∃ variations v, field_variations !! field = Some variations
                                        ∧ v ∈ variations ∧ carries case field v)
                 (combination_rounds selected_fields) combos) ∧
  (∀ cases,
     generate_test_cases requirements reply selected_fields default_body g
     = Some cases →
     ∃ field_variations g1 g2 automated content scenarios advisory,
       generate_combination_test_cases default_body selected_fields field_variations g1
       = (inr automated, g2)
       ∧ reply = inr content
       ∧ json_loads content = inr (VList scenarios)
       ∧ cases = automated ++ advisory
       ∧ Forall2 (fun scenario case =>
                    built_from default_body
                      (declared_fields selected_fields scenario) case
                    ∧ ∀ field, field ∈ declared_fields selected_fields scenario →
                        ∃ v, declared_value scenario field = inr v
                             ∧ carries case field v)
                 scenarios advisory
       ∧ Forall (built_from default_body selected_fields) cases).
Proof.
  split.
  - intros fv g0 g' automated. apply generate_combination_test_cases_parts.
  - intros cases (fv & g1 & automated & g2 & content & gpt & _ & Hauto & Hreply & Hjson
                  & Hcases)%generate_test_cases_Some.
    apply complete_cases_spec in Hcases.
    apply Forall2_app_inv_l in Hcases as (first & advisory & Hfirst & Hadv & ->).
    pose proof (generate_combination_test_cases_built _ _ _ _ _ _ Hauto) as Hbuilt.
    apply (complete_cases_built _ _ _ _ Hbuilt) in Hfirst as ->.
    exists fv, g1, g2, automated, content, gpt, advisory.
    do 4 (split; [done|]). split.
    + eapply Forall2_impl; [exact Hadv|].
      intros scenario case Hcase. split; [by apply complete_case_declared|].
      intros field Hfield. exact (complete_case_values _ _ _ _ _ Hcase Hfield).
    + apply Forall_app. split; [done|].
      apply Forall_forall. intros case Hin.
      apply list_elem_of_lookup in Hin as [i Hi].
      destruct (Forall2_lookup_r _ _ _ _ _ Hadv Hi) as (scenario & _ & Hcase).
      eapply built_from_mono; [|by apply complete_case_declared].
      by intros field [Hf _]%declared_fields_elem.
Qed.

(** C5 (as amended): when the call to the advisory oracle raises, or its
    answer cannot be parsed as JSON, [generate_test_cases] does not raise:
    it returns [None], and the automatically generated cases are not
    returned. *)
Theorem oracle_failure_returns_none (requirements : RequirementsModel)
    (reply : res string) (selected_fields : list string)
    (default_body : gmap string value) (g : rng) :
  (∃ e, reply = inl e) ∨ (∃ content e, reply = inr content ∧ json_loads content = inl e) →
  generate_test_cases requirements reply selected_fields default_body g = None.
Proof.
  intros Hfail.
  destruct (generate_test_cases _ _ _ _ _) as [cases|] eqn:Hgen; [|done].
  apply generate_test_cases_Some in Hgen
    as (fv & g1 & automated & g2 & content & gpt & _ & _ & -> & Hjson & _).
  destruct Hfail as [[e [=]]|(content' & e & [= <-] & Hfail)]. congruence.
Qed.

(** C9 (as amended): a scenario whose data is a mapping leaves the merge
    with the same entries except [data], which is the default body where
    every selected field declared in the scenario's data has the scenario's
    value; a field the scenario declares but that was not selected keeps
    its default value, or stays absent when the default body has none.  A
    scenario without [data] gets the default body. *)
Theorem scenario_merge (default_body : gmap string value)
    (selected_fields : list string) (scenario : gmap string value) :
  (∀ data, scenario !! "data" = Some (VDict data) →
     ∃ body,
       complete_case default_body selected_fields (VDict scenario)
       = inr (<["data" := VDict body]> scenario)
       ∧ ∀ k, body !! k
              = if decide (k ∈ selected_fields)
                then match data !! k with Some v => Some v | None => default_body !! k end
                else default_body !! k) ∧
  (scenario !! "data" = None →
     complete_case default_body selected_fields (VDict scenario)
     = inr (<["data" := VDict default_body]> scenario)).
Proof.
  split.
  - intros data Hdata. eexists. split.
    + unfold complete_case. simpl. rewrite Hdata.
      rewrite bool_decide_eq_true_2 by by eexists. simpl.
      rewrite (complete_fields_dict _ _ _ data Hdata). reflexivity.
    + intros k. apply merged_lookup.
  - intros Hdata. unfold complete_case. simpl. rewrite Hdata.
    rewrite bool_decide_eq_false_2; [done|]. by intros [? [=]].
Qed.

(** ** Executor *)

Lemma execute_test_cases_app (endpoint : string)
    (pre post : list (gmap string value)) (w : World) :
  execute_test_cases endpoint (pre ++ post) w
  = let '(before, w1) := execute_test_cases endpoint pre w in
    let '(after, w2) := execute_test_cases endpoint post w1 in
    (before ++ after, w2).
Proof.
  revert w. induction pre as [|case pre IH]; intros w; simpl.
  - by destruct (execute_test_cases endpoint post w).
  - destruct (execute_case endpoint case w) as [result w1].
    rewrite IH. destruct (execute_test_cases endpoint pre w1) as [before w2].
    by destruct (execute_test_cases endpoint post w2).
Qed.

(** Every case is run, once, by [execute_case]; nothing is dropped. *)
Lemma execute_test_cases_each (endpoint : string)
    (test_cases : list (gmap string value)) (w : World) :
  Forall2 (fun case result => ∃ w0, result = (execute_case endpoint case w0).1)
          test_cases (execute_test_cases endpoint test_cases w).1.
Proof.
  revert w. induction test_cases as [|case rest IH]; intros w; simpl; [constructor|].
  destruct (execute_case endpoint case w) as [result w1] eqn:Hcase.
  specialize (IH w1). destruct (execute_test_cases endpoint rest w1) as [results w2].
  simpl in *. constructor; [|done]. exists w. by rewrite Hcase.
Qed.

Lemma perform_send (endpoint : string) (case : gmap string value) (w : World)
    (method : string) (data : value) (rq : request) :
  case !! "method" = Some (VStr method) →
  case !! "data" = Some data →
  build_request endpoint (lower method) data = inr rq →
  perform endpoint case w = send rq w.
Proof.
  intros Hm Hd Hrq. unfold perform, dict_getitem, getitem. rewrite Hm, Hd.
  unfold st_bind, st_lift, lower_method. by rewrite Hrq.
Qed.

(** What the handler leaves in a case. *)
Lemma on_error_result (case : gmap string value) (e : exn) (w : World) :
  let result := (on_error case e w).1 in
  result !! "actual_status_code" = Some (VStr "Error")
  ∧ result !! "actual_response" = Some (VStr (exn_msg e))
  ∧ (∃ tr, result !! "test_result" = Some (VDict tr)
           ∧ tr !! "passed" = Some (VBool false)
           ∧ tr !! "error" = Some (VStr (exn_msg e)))
  ∧ ∀ k, k ≠ "actual_status_code" → k ≠ "actual_response" → k ≠ "test_result" →
         result !! k = case !! k.
Proof.
  unfold on_error. destruct (now w) as [stamp w']. simpl.
  split; [by simplify_map_eq|]. split; [by simplify_map_eq|]. split.
  - eexists. split; [by simplify_map_eq|]. by simplify_map_eq.
  - intros k H1 H2 H3. by simplify_map_eq.
Qed.

(** C8: the executor runs the cases one after the other and returns one
    result per case, each the outcome of [execute_case] on that case alone
    (suite before the case, the case, suite after it).  A case whose
    request fails in transport gets [actual_status_code] "Error", a
    [test_result] with [passed] false and the error message, which is also
    its [actual_response]; its other entries are untouched.  A case whose
    request is answered gets the status of the answer and is passed exactly
    when its expected status equals that status. *)
Theorem transport_failure_isolated (endpoint : string) :
  (∀ pre case post w,
     let '(before, w1) := execute_test_cases endpoint pre w in
     let '(result, w2) := execute_case endpoint case w1 in
     let '(after, w3) := execute_test_cases endpoint post w2 in
     execute_test_cases endpoint (pre ++ case :: post) w
     = (before ++ result :: after, w3)
     ∧ Forall2 (fun c r => ∃ w0, r = (execute_case endpoint c w0).1) pre before
     ∧ Forall2 (fun c r => ∃ w0, r = (execute_case endpoint c w0).1) post after) ∧
  (∀ case w method data rq e w',
     case !! "method" = Some (VStr method) →
     case !! "data" = Some data →
     build_request endpoint (lower method) data = inr rq →
     send rq w = (inl e, w') →
     let result := (execute_case endpoint case w).1 in
     result !! "actual_status_code" = Some (VStr "Error")
     ∧ result !! "actual_response" = Some (VStr (exn_msg e))
     ∧ (∃ tr, result !! "test_result" = Some (VDict tr)
              ∧ tr !! "passed" = Some (VBool false)
              ∧ tr !! "error" = Some (VStr (exn_msg e)))
     ∧ ∀ k, k ≠ "actual_status_code" → k ≠ "actual_response" → k ≠ "test_result" →
            result !! k = case !! k) ∧
  (∀ case w method data rq r w' expected,
     case !! "method" = Some (VStr method) →
     case !! "data" = Some data →
     build_request endpoint (lower method) data = inr rq →
     send rq w = (inr r, w') →
     case !! "expected_status_code" = Some expected →
     let result := (execute_case endpoint case w).1 in
     result !! "actual_status_code" = Some (VInt (status_code r))
     ∧ ∃ tr, result !! "test_result" = Some (VDict tr)
             ∧ tr !! "passed" = Some (VBool (eq_int expected (status_code r)))).
Proof.
  split; [|split].
  - intros pre case post w.
    pose proof (execute_test_cases_each endpoint pre w) as Hpre.
    rewrite execute_test_cases_app. simpl.
    destruct (execute_test_cases endpoint pre w) as [before w1].
    destruct (execute_case endpoint case w1) as [result w2].
    pose proof (execute_test_cases_each endpoint post w2) as Hpost.
    destruct (execute_test_cases endpoint post w2) as [after w3]. done.
  - intros case w method data rq e w' Hm Hd Hrq Hsend.
    unfold execute_case. rewrite (perform_send _ _ _ _ _ _ Hm Hd Hrq), Hsend.
    apply on_error_result.
  - intros case w method data rq r w' expected Hm Hd Hrq Hsend Hexp.
    unfold execute_case. rewrite (perform_send _ _ _ _ _ _ Hm Hd Hrq), Hsend.
    unfold score, record_response, dict_getitem. simpl.
    rewrite !lookup_insert_ne by done. rewrite Hexp.
    destruct (now w') as [stamp w'']. simpl. split; [by simplify_map_eq|].
    eexists. split; [by simplify_map_eq|]. by simplify_map_eq.
Qed.

(** ** Report *)

Lemma passed_counted (test : gmap string value) :
  (∀ v, test !! "test_result" = Some v → ∃ tr, v = VDict tr) →
  passed test = inr (counted_as_passed test).
Proof.
  intros Hmap. unfold passed, test_result_entry, counted_as_passed.
  destruct (test !! "test_result") as [v|]; simpl.
  - destruct (Hmap v eq_refl) as [tr ->]. simpl. by destruct (tr !! "passed").
  - by rewrite lookup_empty.
Qed.

Lemma filter_split_length {A : Type} (p : A -> bool) (l : list A) :
  length l = length (List.filter p l) + length (List.filter (fun x => negb (p x)) l).
Proof. induction l as [|x l IH]; simpl; [done|]. destruct (p x); simpl; lia. Qed.

Lemma count_passed_spec (results : list (gmap string value)) (n : nat) :
  Forall executed_case results →
  res_fold (fun n test =>
              res_bind (passed test) (fun p => inr (if p : bool then S n else n)))
           n results
  = inr (n + length (List.filter counted_as_passed results)).
Proof.
  intros Hwf. revert n. induction Hwf as [|test results (_ & _ & _ & Hmap) _ IH];
    intros n; simpl; [by rewrite Nat.add_0_r|].
  rewrite (passed_counted test Hmap). simpl. rewrite IH.
  destruct (counted_as_passed test); simpl; f_equal; lia.
Qed.

Lemma failed_summary_entry_total (test : gmap string value) :
  executed_case test →
  ∃ entry, failed_summary_entry test = inr entry ∧ lists test entry.
Proof.
  intros ([name Hn] & [exp He] & [act Ha] & Hmap).
  unfold failed_summary_entry, dict_getitem, test_result_entry, getitem.
  rewrite Hn, He, Ha. simpl.
  assert (∃ err, get_method (default (VDict ∅) (test !! "test_result")) "error"
                   (VStr "No error message") = inr err) as [err ->].
  { destruct (test !! "test_result") as [v|]; simpl; [|by eexists].
    destruct (Hmap v eq_refl) as [tr ->]. by eexists. }
  simpl. eexists. split; [reflexivity|]. by repeat split.
Qed.

Lemma failed_summary_spec (results : list (gmap string value)) (acc : list failed_entry) :
  Forall executed_case results →
  ∃ entries,
    res_fold (fun acc test =>
                res_bind (passed test)
                  (fun p => if p : bool then inr acc
                            else res_bind (failed_summary_entry test)
                                   (fun entry => inr (acc ++ [entry]))))
             acc results
    = inr (acc ++ entries)
    ∧ Forall2 lists (List.filter (fun t => negb (counted_as_passed t)) results) entries.
Proof.
  intros Hwf. revert acc.
  induction Hwf as [|test results Htest _ IH]; intros acc; simpl.
  - exists []. rewrite app_nil_r. split; [done|constructor].
  - rewrite (passed_counted test (proj2 (proj2 (proj2 Htest)))). simpl.
    destruct (counted_as_passed test) eqn:Hp; simpl; [apply IH|].
    destruct (failed_summary_entry_total test Htest) as (entry & -> & Hentry). simpl.
    destruct (IH (acc ++ [entry])) as (entries & -> & Hentries).
    exists (entry :: entries). rewrite <- app_assoc. split; [done|].
    by constructor.
Qed.


(** ** A selected field without variations *)

(** A loop raises as soon as one of its elements makes the body raise from
    every state. *)
Lemma st_fold_raises {S A B : Type} (body : B -> A -> st S B) (xs : list A) (x : A) :
  x ∈ xs →
  (∀ acc s, ∃ e s', body acc x s = (inl e, s')) →
  ∀ acc s, ∃ e s', st_fold body acc xs s = (inl e, s').
Proof.
  intros Hx Hraise. induction xs as [|y xs IH]; intros acc s; simpl.
  - by apply elem_of_nil in Hx.
  - destruct (body acc y s) as [[e|acc'] s1] eqn:Hy.
    + exists e, s1. by apply st_bind_inl.
    + rewrite (st_bind_inr _ _ s s1 acc' Hy).
      apply elem_of_cons in Hx as [->|Hx]; [|by apply IH].
      destruct (Hraise acc s) as (e & s' & He). congruence.
Qed.

Lemma combinations_nonempty {A : Type} (l : list A) (r : nat) :
  r ≤ length l → ∃ c, c ∈ combinations l r.
Proof.
  revert r. induction l as [|y l IH]; intros [|r] Hr; simpl in *;
    try (exists []; left); [lia|].
  destruct (IH r) as [c Hc]; [lia|]. exists (y :: c).
  apply elem_of_app. left. by apply list_elem_of_fmap_2.
Qed.

(** Every element of a list occurs in some combination of each size from
    1 to the length of the list. *)
Lemma combinations_cover {A : Type} (l : list A) (r : nat) (x : A) :
  x ∈ l → 1 ≤ r → r ≤ length l → ∃ c, c ∈ combinations l r ∧ x ∈ c.
Proof.
  revert r. induction l as [|y l IH]; intros r Hx Hr1 Hr2.
  { by apply elem_of_nil in Hx. }
  destruct r as [|r]; [lia|]. simpl in *.
  apply elem_of_cons in Hx as [->|Hx].
  - destruct (combinations_nonempty l r) as [c Hc]; [lia|].
    exists (y :: c). split; [|left]. apply elem_of_app. left.
    by apply list_elem_of_fmap_2.
  - destruct (decide (S r ≤ length l)) as [Hle|Hgt].
    + destruct (IH (S r) Hx) as (c & Hc & Hxc); [lia|done|].
      exists c. split; [|done]. apply elem_of_app. by right.
    + assert (1 ≤ r) by (destruct l; [by apply elem_of_nil in Hx|simpl in *; lia]).
      destruct (IH r Hx) as (c & Hc & Hxc); [done|lia|].
      exists (y :: c). split; [|by right]. apply elem_of_app. left.
      by apply list_elem_of_fmap_2.
Qed.

Lemma combination_rounds_cover (selected_fields : list string) (field : string) :
  2 ≤ length selected_fields → field ∈ selected_fields →
  ∃ fields_combo,
    fields_combo ∈ combination_rounds selected_fields ∧ field ∈ fields_combo.
Proof.
  intros Hlen Hf.
  destruct (combinations_cover selected_fields 2 field Hf) as (c & Hc & Hfc); [lia|done|].
  exists c. split; [|done]. unfold combination_rounds.
  apply list_elem_of_bind. exists 2. split.
  - apply list_elem_of_bind. exists c. split; [|done]. by left.
  - destruct (combination_sizes_cases selected_fields) as [[Hk _]|[[_ ->]|[_ ->]]];
      [lia|left|left].
Qed.

(** The combination pass raises when a selected field has an empty
    variation list and at least two fields are selected. *)
Lemma combination_pass_raises (default_body : gmap string value)
    (selected_fields : list string) (field_variations : gmap string (list value))
    (field : string) (acc : list (gmap string value)) (g : rng) :
  2 ≤ length selected_fields → field ∈ selected_fields →
  field_variations !! field = Some [] →
  ∃ e g', combination_pass default_body selected_fields field_variations acc g
          = (inl e, g').
Proof.
  intros Hlen Hf Hempty.
  destruct (combination_rounds_cover selected_fields field Hlen Hf) as (combo & Hc & Hfc).
  unfold combination_pass. apply (st_fold_raises _ _ combo Hc).
  intros acc' s. unfold combination_case.
  destruct (st_fold_raises
              (fun (body : gmap string value) f =>
                 st_bind (st_lift (variations_of field_variations f))
                   (fun variations =>
                      st_bind (choice variations)
                        (fun v => st_ret (<[f := v]> body))))
              combo field Hfc) with (acc := default_body) (s := s) as (e & s' & He).
  { intros body t. exists (Raise IndexError "Cannot choose from an empty sequence"), t.
    unfold st_bind, st_lift, variations_of. by rewrite Hempty. }
  exists e, s'. apply st_bind_inl. by apply st_bind_inl.
Qed.

Lemma generate_field_variations_total (field_name : string)
    (field_info : option FieldSpec) (g : rng) :
  ∃ variations g', generate_field_variations field_name field_info g
                   = (inr variations, g').
Proof.
  unfold generate_field_variations, faker, randint, st_bind, st_ret, draw.
  destruct field_info as [info|]; [|by eexists _, _].
  repeat match goal with
         | |- context [if ?b then _ else _] => destruct b
         end;
    destruct g as [|? [|? [|? [|? [|? g]]]]]; by eexists _, _.
Qed.

(** What the loop over the selected fields stores for each of them. *)
Lemma build_field_variations_lookup (requirements : RequirementsModel)
    (selected_fields : list string) (g : rng) :
  ∃ field_variations g',
    build_field_variations requirements selected_fields g = (inr field_variations, g')
    ∧ ∀ field, field ∈ selected_fields →
        ∃ variations g0,
          field_variations !! field = Some variations
          ∧ (generate_field_variations field (lookup_field_info requirements field) g0).1
            = inr variations.
Proof.
  unfold build_field_variations.
  assert (∀ (acc : gmap string (list value)) g,
            ∃ fv g',
              st_fold (fun (field_variations : gmap string (list value)) field =>
                         st_bind (generate_field_variations field
                                    (lookup_field_info requirements field))
                           (fun variations =>
                              st_ret (<[field := variations]> field_variations)))
                      acc selected_fields g = (inr fv, g')
              ∧ ∀ field,
                  (field ∈ selected_fields →
                   ∃ variations g0,
                     fv !! field = Some variations
                     ∧ (generate_field_variations field
                          (lookup_field_info requirements field) g0).1 = inr variations)
                  ∧ (field ∉ selected_fields → fv !! field = acc !! field)) as H.
  { induction selected_fields as [|f fs IH]; intros acc g0; simpl.
    - exists acc, g0. split; [done|]. intros field. split; [|done].
      intros Hin. by apply elem_of_nil in Hin.
    - destruct (generate_field_variations_total f (lookup_field_info requirements f) g0)
        as (vs & g1 & Hvs).
      destruct (IH (<[f := vs]> acc) g1) as (fv & g2 & Hrun & Hfv).
      exists fv, g2. split.
      + rewrite (st_bind_inr _ _ g0 g1 (<[f := vs]> acc)); [done|].
        by rewrite (st_bind_inr _ _ g0 g1 vs).
      + intros field. destruct (Hfv field) as [Hin Hout]. split.
        * intros Hfield. destruct (decide (field ∈ fs)) as [Hfs|Hfs]; [by apply Hin|].
          apply elem_of_cons in Hfield as [->|Hfield]; [|done].
          exists vs, g0. rewrite (Hout Hfs), lookup_insert_eq, Hvs. done.
        * intros Hfield. rewrite Hout by (intros ?; apply Hfield; by right).
          apply lookup_insert_ne. intros ->. apply Hfield. left. }
  destruct (H ∅ g) as (fv & g' & Hrun & Hfv). exists fv, g'. split; [done|].
  intros field Hin. by apply Hfv.
Qed.

(** Whenever two or more fields are selected and one of them has no
    variation, no test case is generated at all, whatever the oracle
    answers. *)
Lemma empty_variations_abort (requirements : RequirementsModel)
    (reply : res string) (selected_fields : list string)
    (default_body : gmap string value) (g : rng) (field : string) :
  2 ≤ length selected_fields → field ∈ selected_fields →
  (∀ g0, (generate_field_variations field (lookup_field_info requirements field) g0).1
         = inr []) →
  generate_test_cases requirements reply selected_fields default_body g = None.
Proof.
  intros Hlen Hf Hempty.
  destruct (generate_test_cases _ _ _ _ _) as [cases|] eqn:Hgen; [|done].
  apply generate_test_cases_Some in Hgen
    as (fv & g1 & automated & g2 & _ & _ & Hfv & Hauto & _).
  destruct (build_field_variations_lookup requirements selected_fields g)
    as (fv' & g1' & Hfv' & Hlookup).
  rewrite Hfv in Hfv'. injection Hfv' as <- <-.
  destruct (Hlookup field Hf) as (vs & g0 & Hvs & Hgen). rewrite Hempty in Hgen.
  injection Hgen as <-.
  unfold generate_combination_test_cases, st_bind, st_lift in Hauto.
  destruct (single_field_pass default_body selected_fields fv []) as [e|singles];
    [done|].
  destruct (combination_pass_raises default_body selected_fields fv field singles g1
              Hlen Hf Hvs) as (e & g' & Hraise).
  congruence.
Qed.

(** ** Addresses derived from the endpoint *)

Lemma append_cons (c : ascii) (s t : string) : String c s +:+ t = String c (s +:+ t).
Proof. reflexivity. Qed.

Lemma append_empty_r (s : string) : s +:+ "" = s.
Proof. induction s as [|c s IH]; [done|]. by rewrite append_cons, IH. Qed.

Lemma append_assoc (s t u : string) : (s +:+ t) +:+ u = s +:+ (t +:+ u).
Proof. induction s as [|c s IH]; [done|]. by rewrite !append_cons, IH. Qed.

Lemma split_on_cons (sep : ascii) (s : string) :
  ∃ part parts, split_on sep s = part :: parts.
Proof.
  induction s as [|c s (part & parts & IH)]; simpl; [by eexists _, _|].
  case_bool_decide; [by eexists _, _|]. rewrite IH. by eexists _, _.
Qed.

Lemma join_cons_head (sep : string) (c : ascii) (part : string) (parts : list string) :
  join sep (String c part :: parts) = String c (join sep (part :: parts)).
Proof. unfold join. by destruct parts. Qed.

(** Splitting at a character and joining with it gives the string back. *)
Lemma join_split_on (s : string) : join "/" (split_on slash s) = s.
Proof.
  induction s as [|c s IH]; [done|]. simpl.
  destruct (split_on_cons slash s) as (part & parts & Hs). rewrite Hs in *.
  case_bool_decide as Hc.
  - subst c.
    change (join "/" ("" :: part :: parts)) with ("/" +:+ join "/" (part :: parts)).
    by rewrite IH.
  - by rewrite join_cons_head, IH.
Qed.

Lemma join_app (sep : string) (l1 l2 : list string) :
  l1 ≠ [] → l2 ≠ [] →
  join sep (l1 ++ l2) = join sep l1 +:+ sep +:+ join sep l2.
Proof.
  intros H1 H2. induction l1 as [|x [|y l1] IH]; [done| |].
  - destruct l2 as [|z l2]; [done|]. reflexivity.
  - change (join sep ((x :: y :: l1) ++ l2))
      with (x +:+ sep +:+ join sep ((y :: l1) ++ l2)).
    rewrite IH by done.
    change (join sep (x :: y :: l1)) with (x +:+ sep +:+ join sep (y :: l1)).
    by rewrite !append_assoc.
Qed.

(** X1: for an endpoint with at least three parts between slashes, the
    base address followed by the relative path is the endpoint again; for a
    shorter one the base address is empty (so that the document is looked
    for at "/openapi.json") and the relative path is the whole endpoint
    behind a slash. *)
Theorem endpoint_addresses (endpoint : string) :
  (3 ≤ length (split_on slash endpoint) →
   base_url endpoint +:+ relative_path endpoint = endpoint) ∧
  (length (split_on slash endpoint) < 3 →
   base_url endpoint = "" ∧ openapi_url endpoint = "/openapi.json"
   ∧ relative_path endpoint = "/" +:+ endpoint).
Proof.
  unfold openapi_url, base_url, relative_path, but_last_two, last_two.
  set (parts := split_on slash endpoint). split.
  - intros Hlen.
    transitivity (join "/" (take (length parts - 2) parts
                            ++ drop (length parts - 2) parts));
      [|rewrite take_drop; apply join_split_on].
    rewrite join_app; [done| |].
    + intros Hnil%(f_equal length). rewrite length_take in Hnil. simpl in Hnil. lia.
    + intros Hnil%(f_equal length). rewrite length_drop in Hnil. simpl in Hnil. lia.
  - intros Hlen. replace (length parts - 2) with 0 by lia.
    rewrite take_0, drop_0. unfold parts. by rewrite join_split_on.
Qed.

(** ** Schema extraction, continued *)

Lemma process_property_required (required : value) (field_name : string)
    (field_info : value) (spec : FieldSpec) :
  process_property required field_name field_info = inr spec →
  contains field_name required = inr (fs_required spec).
Proof.
  unfold process_property.
  destruct field_info as [| | | | |info]; try discriminate.
  destruct (contains field_name required) as [e|req]; simpl; [discriminate|].
  destruct (info !! "anyOf") as [any_of|]; simpl.
  - destruct (iterate any_of) as [e|members]; simpl; [discriminate|].
    destruct (any_of_types members) as [e|tys]; simpl; [discriminate|].
    destruct (any_of_format (info !! "format") members) as [e|fmt]; simpl; [discriminate|].
    by intros [= <-].
  - by intros [= <-].
Qed.

Lemma process_properties_keys (required : value) (properties : gmap string value)
    (sample_data : gmap string FieldSpec) :
  process_properties required properties = inr sample_data →
  dom sample_data = dom properties.
Proof.
  unfold process_properties.
  assert (∀ (items : list (string * value)) (acc out : gmap string FieldSpec),
            res_fold (fun (acc : gmap string FieldSpec) '(field_name, field_info) =>
                        res_bind (process_property required field_name field_info)
                          (fun field_data => inr (<[field_name := field_data]> acc)))
                     acc items = inr out →
            dom out = dom acc ∪ list_to_set items.*1) as H.
  { induction items as [|[name info] items IH]; intros acc out; simpl.
    - intros [= <-]. by rewrite union_empty_r_L.
    - destruct (process_property required name info) as [e|field_data]; simpl; [done|].
      intros ->%IH. rewrite dom_insert_L.
      by rewrite (comm_L (∪) {[name]} (dom acc)), (assoc_L (∪)). }
  intros ->%H. rewrite dom_empty_L. apply set_eq. intros k.
  rewrite elem_of_union, elem_of_empty, elem_of_list_to_set, elem_of_dom.
  rewrite list_elem_of_fmap. split.
  - intros [[]|([k' v] & -> & Hin%elem_of_map_to_list)]. by eexists.
  - intros [v Hv]. right. exists (k, v). split; [done|]. by apply elem_of_map_to_list.
Qed.

(** X2: the sample data extracted from a schema has exactly the names of
    the schema's properties; every entry is the processed form of the
    property of that name, and, when the schema's [required] is a list, an
    entry is flagged required exactly when its name is in that list. *)
Theorem sample_data_follows_schema (required : list value)
    (properties : gmap string value) (sample_data : gmap string FieldSpec) :
  process_properties (VList required) properties = inr sample_data →
  dom sample_data = dom properties ∧
  ∀ field_name spec,
    sample_data !! field_name = Some spec →
    (∃ field_info, properties !! field_name = Some field_info
                   ∧ process_property (VList required) field_name field_info = inr spec)
    ∧ (fs_required spec = true ↔ VStr field_name ∈ required).
Proof.
  intros Hrun. split; [by eapply process_properties_keys|].
  intros field_name spec Hspec.
  destruct (process_properties_lookup _ _ _ _ _ Hrun Hspec) as (info & Hinfo & Hp).
  split; [by exists info|].
  apply process_property_required in Hp. simpl in Hp. injection Hp as <-.
  rewrite existsb_exists. split.
  - intros (x & Hx%list_elem_of_In & ->%eq_str_true). done.
  - intros Hin. exists (VStr field_name). split; [by apply list_elem_of_In|].
    by apply eq_str_true.
Qed.

Lemma contains_dict (d : gmap string value) (k : string) (v : value) :
  d !! k = Some v → contains k (VDict d) = inr true.
Proof. intros H. simpl. by rewrite bool_decide_eq_true_2 by by eexists. Qed.

Lemma contains_dict_missing (d : gmap string value) (k : string) :
  d !! k = None → contains k (VDict d) = inr false.
Proof. intros H. simpl. rewrite bool_decide_eq_false_2; [done|]. rewrite H. by intros [? [=]]. Qed.

Lemma getitem_dict (d : gmap string value) (k : string) (v : value) :
  d !! k = Some v → getitem (VDict d) k = inr v.
Proof. intros H. simpl. by rewrite H. Qed.

(** Rewrites the accesses to dictionaries whose entries are known. *)
Ltac known_entries :=
  repeat (cbn [res_bind];
          first [ erewrite getitem_dict by eassumption
                | erewrite contains_dict by eassumption
                | erewrite contains_dict_missing by eassumption ]);
  cbn [res_bind].

(** X3: a request schema written in place, without [$ref], is reported as
    not found even when the operation declares it; and a [$ref] whose
    target is missing from [components.schemas] raises KeyError (the caller
    turns it into "Analysis failed"), instead of "not found".  The text of
    the exception is [repr] of the schema's name, which for a name in ASCII
    is the text computed here: between apostrophes, or between double
    quotes for a name with an apostrophe and no double quote. *)
Theorem schema_reference_needed (openapi_spec : value)
    (post_info request_body content body schema_decl : gmap string value) :
  post_info !! "requestBody" = Some (VDict request_body) →
  request_body !! "content" = Some (VDict content) →
  content !! "application/json" = Some (VDict body) →
  body !! "schema" = Some (VDict schema_decl) →
  (schema_decl !! "$ref" = None →
   analyze_operation openapi_spec (VDict post_info) = inr AnalysisNotFound) ∧
  (∀ ref (spec components schemas : gmap string value),
     schema_decl !! "$ref" = Some (VStr ref) → ref ≠ "" →
     openapi_spec = VDict spec →
     spec !! "components" = Some (VDict components) →
     components !! "schemas" = Some (VDict schemas) →
     schemas !! List.last (split_on slash ref) "" = None →
     ∃ e, analyze_operation openapi_spec (VDict post_info) = inl e
          ∧ exn_type e = KeyError
          ∧ (isascii (List.last (split_on slash ref) "") = true →
             exn_msg e = repr (List.last (split_on slash ref) ""))).
Proof.
  intros Hrb Hcontent Hbody Hschema.
  assert (has_request_schema (VDict post_info) = inr true) as Hhas.
  { unfold has_request_schema, and_then. by known_entries. }
  split.
  - intros Href. unfold analyze_operation. rewrite Hhas. known_entries.
    unfold get_method. by rewrite Href.
  - intros ref spec components schemas Href Hne -> Hc Hs Hmissing.
    exists (Raise KeyError (repr (List.last (split_on slash ref) ""))).
    split; [|by split].
    unfold analyze_operation. rewrite Hhas. known_entries.
    unfold get_method. rewrite Href. cbn [default from_option id res_bind truthy].
    rewrite bool_decide_eq_false_2 by done. cbn [negb schema_name_of res_bind].
    known_entries. unfold getitem. by rewrite Hmissing.
Qed.

(** ** Requirements and default body *)

Lemma copy_field_same (field_info : FieldSpec) : copy_field field_info = field_info.
Proof. by destruct field_info. Qed.

(** The entry left under a key by a loop over the items of a dictionary
    that writes [item.1] when [pick] finds something for the item. *)
Lemma lookup_conditional_inserts {A B : Type} (pick : string -> A -> option B)
    (step : gmap string B -> string * A -> gmap string B)
    (items : list (string * A)) (start : gmap string B) (key : string) :
  (∀ m it, step m it = match pick it.1 it.2 with
                       | Some v => <[it.1 := v]> m
                       | None => m
                       end) →
  NoDup items.*1 →
  foldl step start items !! key
  = match (list_to_map items : gmap string A) !! key ≫= pick key with
    | Some v => Some v
    | None => start !! key
    end.
Proof.
  intros Hstep. revert start.
  induction items as [|[k a] items IH]; intros start Hnodup; cbn [foldl].
  - change (list_to_map [] : gmap string A) with (∅ : gmap string A).
    by rewrite lookup_empty.
  - apply NoDup_cons in Hnodup as [Hk Hnodup].
    rewrite IH by done. rewrite Hstep. cbn [fst snd list_to_map foldr uncurry].
    destruct (decide (key = k)) as [->|Hne].
    + rewrite lookup_insert_eq.
      rewrite (not_elem_of_list_to_map_1 (M := gmap string) items k Hk). cbn.
      destruct (pick k a); [by rewrite lookup_insert_eq|done].
    + rewrite lookup_insert_ne by done.
      destruct ((list_to_map items : gmap string A) !! key ≫= pick key); [done|].
      destruct (pick k a); [by rewrite lookup_insert_ne|done].
Qed.

Lemma sort_fields_buckets (items : list (string * FieldSpec)) (model : RequirementsModel) :
  required_fields (foldl add_field model items)
  = foldl (fun m it => if fs_required it.2 then <[it.1 := copy_field it.2]> m else m)
          (required_fields model) items
  ∧ optional_fields (foldl add_field model items)
    = foldl (fun m it => if fs_required it.2 then m else <[it.1 := copy_field it.2]> m)
            (optional_fields model) items.
Proof.
  revert model. induction items as [|it items IH]; intros model; cbn [foldl]; [done|].
  destruct (IH (add_field model it)) as [-> ->]. unfold add_field.
  by destruct (fs_required it.2).
Qed.

(** The buckets as filters of the sample data. *)
Lemma sort_fields_lookup (sample_data : gmap string FieldSpec) (field_name : string) :
  required_fields (sort_fields sample_data) !! field_name
  = sample_data !! field_name
    ≫= (fun info => if fs_required info then Some info else None)
  ∧ optional_fields (sort_fields sample_data) !! field_name
    = sample_data !! field_name
      ≫= (fun info => if fs_required info then None else Some info).
Proof.
  unfold sort_fields.
  destruct (sort_fields_buckets (map_to_list sample_data)
              {| required_fields := ∅; optional_fields := ∅ |}) as [-> ->].
  cbn [required_fields optional_fields].
  rewrite (lookup_conditional_inserts
             (fun _ info => if fs_required info then Some (copy_field info) else None));
    [|intros m it; by destruct (fs_required it.2)|apply NoDup_fst_map_to_list].
  rewrite (lookup_conditional_inserts
             (fun _ info => if fs_required info then None else Some (copy_field info)));
    [|intros m it; by destruct (fs_required it.2)|apply NoDup_fst_map_to_list].
  rewrite list_to_map_to_list, !lookup_empty.
  destruct (sample_data !! field_name) as [info|]; cbn; [|done].
  rewrite copy_field_same. by destruct (fs_required info).
Qed.

(** X4: the two buckets split the sample data: a field is in the required
    bucket exactly when the sample data flags it required, in the optional
    bucket exactly when it does not, with its description unchanged; so no
    field is in both and none is lost. *)
Theorem sort_fields_partition (sample_data : gmap string FieldSpec)
    (field_name : string) (spec : FieldSpec) :
  (required_fields (sort_fields sample_data) !! field_name = Some spec ↔
   sample_data !! field_name = Some spec ∧ fs_required spec = true) ∧
  (optional_fields (sort_fields sample_data) !! field_name = Some spec ↔
   sample_data !! field_name = Some spec ∧ fs_required spec = false).
Proof.
  destruct (sort_fields_lookup sample_data field_name) as [-> ->].
  destruct (sample_data !! field_name) as [info|]; cbn.
  - destruct (fs_required info) eqn:Hreq; split; split;
      first [ by intros [= <-] | by intros [[= <-] H]; congruence | done ].
  - split; split; first [ done | by intros [? _] ].
Qed.

(** X5: the value of a field in the default body is the default declared
    by its optional entry if there is one, and otherwise the value the
    chain finds for its required entry; a name with neither is not in the
    body. *)
Theorem default_body_values (requirements : RequirementsModel) (field : string) :
  get_default_request_body requirements !! field
  = match optional_fields requirements !! field ≫= fs_default with
    | Some v => Some v
    | None => required_fields requirements !! field ≫= required_value field
    end.
Proof.
  unfold get_default_request_body.
  rewrite (lookup_conditional_inserts (fun _ info => fs_default info));
    [|done|apply NoDup_fst_map_to_list].
  rewrite (lookup_conditional_inserts required_value);
    [|done|apply NoDup_fst_map_to_list].
  rewrite !list_to_map_to_list, lookup_empty.
  by destruct (required_fields requirements !! field ≫= required_value field).
Qed.

Lemma required_value_after_extraction (required : value) (field_name : string)
    (field_info : value) (spec : FieldSpec) :
  process_property required field_name field_info = inr spec →
  required_value field_name spec = None ↔
  lower field_name ≠ "email"
  ∧ is_substring "password" (lower field_name) = false
  ∧ fs_type spec ≠ VStr "string" ∧ fs_type spec ≠ VStr "boolean"
  ∧ fs_type spec ≠ VStr "integer"
  ∧ fs_format spec ≠ Some (VStr "email").
Proof.
  intros Hex%process_property_example. unfold required_value. rewrite Hex.
  unfold synthesize_example.
  case_bool_decide as Hemail; [split; [done|by intros [? _]]|].
  destruct (is_substring "password" (lower field_name)) eqn:Hpw;
    [split; [done|by intros (_ & ? & _)]|].
  destruct (eq_str (fs_type spec) "string") eqn:Hs.
  { apply eq_str_true in Hs. split; [done|by intros (_ & _ & ? & _)]. }
  destruct (eq_str (fs_type spec) "boolean") eqn:Hb.
  { apply eq_str_true in Hb. split; [done|by intros (_ & _ & _ & ? & _)]. }
  assert (fs_type spec ≠ VStr "string") as Hs'
    by (intros Heq%eq_str_true; congruence).
  assert (fs_type spec ≠ VStr "boolean") as Hb'
    by (intros Heq%eq_str_true; congruence).
  assert (match fs_format spec with Some f => eq_str f "email" | None => false end
          = false ↔ fs_format spec ≠ Some (VStr "email")) as Hfmt.
  { destruct (fs_format spec) as [f|]; [|done].
    destruct (eq_str f "email") eqn:Hf.
    - apply eq_str_true in Hf as ->. split; [done|congruence].
    - split; [|done]. intros _ [= Heq]. apply eq_str_true in Heq. congruence. }
  destruct (match fs_format spec with Some f => eq_str f "email" | None => false end).
  { split; [done|]. intros (_ & _ & _ & _ & _ & Hf). by apply Hfmt in Hf. }
  destruct (eq_str (fs_type spec) "integer") eqn:Hi.
  { apply eq_str_true in Hi. split; [done|by intros (_ & _ & _ & _ & ? & _)]. }
  assert (fs_type spec ≠ VStr "integer") as Hi'
    by (intros Heq%eq_str_true; congruence).
  split; [|done]. intros _. repeat split; try done. by apply Hfmt.
Qed.

(** X6: from an extracted schema to the default body: a field that the
    schema requires is left out of the default body exactly when its name
    is not "email", contains no "password", its type is none of string,
    boolean and integer, and its format is not email; and the default body
    holds nothing but names of the schema. *)
Theorem extracted_default_body (required : value) (properties : gmap string value)
    (sample_data : gmap string FieldSpec) :
  process_properties required properties = inr sample_data →
  let body := get_default_request_body (sort_fields sample_data) in
  dom body ⊆ dom properties ∧
  ∀ field_name spec,
    sample_data !! field_name = Some spec → fs_required spec = true →
    (body !! field_name = None ↔
     lower field_name ≠ "email"
     ∧ is_substring "password" (lower field_name) = false
     ∧ fs_type spec ≠ VStr "string" ∧ fs_type spec ≠ VStr "boolean"
     ∧ fs_type spec ≠ VStr "integer"
     ∧ fs_format spec ≠ Some (VStr "email")).
Proof.
  intros Hrun body. split.
  - intros k Hk. rewrite <- (process_properties_keys _ _ _ Hrun). apply elem_of_dom.
    destruct (sort_fields_lookup sample_data k) as [Hr Ho].
    apply default_body_keys in Hk as [(info & Hk & _)|(info & Hk & _)].
    + rewrite Hr in Hk. destruct (sample_data !! k); [by eexists|done].
    + rewrite Ho in Hk. destruct (sample_data !! k); [by eexists|done].
  - intros field_name spec Hspec Hreq.
    destruct (sort_fields_lookup sample_data field_name) as [Hr Ho].
    rewrite Hspec in Hr, Ho. cbn in Hr, Ho. rewrite Hreq in Hr, Ho.
    destruct (process_properties_lookup _ _ _ _ _ Hrun Hspec) as (info & _ & Hp).
    rewrite <- (required_value_after_extraction _ _ _ _ Hp).
    rewrite <- not_elem_of_dom. unfold body. rewrite default_body_keys.
    rewrite Hr, Ho. split.
    + intros Hnot. destruct (required_value field_name spec) as [v|] eqn:Hv; [|done].
      destruct Hnot. left. exists spec. split; [done|]. by rewrite Hv.
    + intros Hnone [(info' & [= <-] & Hsome)|(info' & [=] & _)].
      rewrite Hnone in Hsome. by destruct Hsome.
Qed.

(** ** Field variations *)

(** Runs the draws of [generate_field_variations] for every shape of the
    generator's first five draws. *)
Ltac run_variations g :=
  unfold generate_field_variations, faker, randint, st_bind, st_ret, draw;
  destruct g as [|? [|? [|? [|? [|? ?]]]]]; cbn [fst snd].

(** X7: whether a field has variations does not depend on the random
    draws: the list is empty exactly when the field has no description,
    or its type is "string" and its name contains none of "email", "name",
    "password", "phone", or its type is none of "string", "integer",
    "boolean". *)
Theorem variations_empty_iff (field_name : string) (field_info : option FieldSpec)
    (g : rng) :
  (generate_field_variations field_name field_info g).1 = inr [] ↔
  field_info = None
  ∨ ∃ info, field_info = Some info
            ∧ ((fs_type info = VStr "string"
                ∧ is_substring "email" (lower field_name) = false
                ∧ is_substring "name" (lower field_name) = false
                ∧ is_substring "password" (lower field_name) = false
                ∧ is_substring "phone" (lower field_name) = false)
               ∨ (fs_type info ≠ VStr "string" ∧ fs_type info ≠ VStr "integer"
                  ∧ fs_type info ≠ VStr "boolean")).
Proof.
  destruct field_info as [info|]; [|split; [by left|done]].
  destruct (eq_str (fs_type info) "string") eqn:Hs.
  - apply eq_str_true in Hs as Hty.
    destruct (is_substring "email" (lower field_name)) eqn:He;
      [|destruct (is_substring "name" (lower field_name)) eqn:Hn;
        [|destruct (is_substring "password" (lower field_name)) eqn:Hp;
          [|destruct (is_substring "phone" (lower field_name)) eqn:Hph]]].
    1-4: split;
      [ run_variations g; rewrite Hs, ?He, ?Hn, ?Hp, ?Hph; discriminate
      | intros [[=]|(info' & [= <-] & [(_ & ? & ? & ? & ?)|[? _]])]; congruence ].
    split; [|by (run_variations g; rewrite Hs, He, Hn, Hp, Hph)].
    intros _. right. exists info. split; [done|]. left. by repeat split.
  - assert (fs_type info ≠ VStr "string") as Hs'
      by (intros Heq%eq_str_true; congruence).
    destruct (eq_str (fs_type info) "integer") eqn:Hi.
    { apply eq_str_true in Hi as Hty. split.
      - run_variations g; rewrite Hs, Hi; discriminate.
      - intros [[=]|(info' & [= <-] & [[? _]|(_ & ? & _)])]; congruence. }
    assert (fs_type info ≠ VStr "integer") as Hi'
      by (intros Heq%eq_str_true; congruence).
    destruct (eq_str (fs_type info) "boolean") eqn:Hb.
    { apply eq_str_true in Hb as Hty. split.
      - run_variations g; rewrite Hs, Hi, Hb; discriminate.
      - intros [[=]|(info' & [= <-] & [[? _]|(_ & _ & ?)])]; congruence. }
    assert (fs_type info ≠ VStr "boolean") as Hb'
      by (intros Heq%eq_str_true; congruence).
    split; [|by (run_variations g; rewrite Hs, Hi, Hb)].
    intros _. right. exists info. split; [done|]. by right.
Qed.

(** X8: two runs of the variation generator on the same field give lists
    of the same length that agree from the fifth entry on, whatever the
    random draws: only the leading Faker and [randint] entries (at most
    four) can differ. *)
Theorem variations_fixed_entries (field_name : string) (field_info : option FieldSpec)
    (g1 g2 : rng) :
  ∃ variations1 variations2,
    (generate_field_variations field_name field_info g1).1 = inr variations1
    ∧ (generate_field_variations field_name field_info g2).1 = inr variations2
    ∧ length variations1 = length variations2
    ∧ drop 4 variations1 = drop 4 variations2.
Proof.
  destruct field_info as [info|]; [|by exists [], []].
  run_variations g1; run_variations g2;
    repeat match goal with
           | |- context [if ?b then _ else _] => destruct b
           end;
    by eexists _, _.
Qed.

(** ** Test builder, continued *)

(** X9: a combination case overrides every field of its combination, and
    only those, with a value taken from that field's own variation list;
    its data has the keys of the default body and of the combination, and
    nothing else. *)
Theorem combination_case_values (default_body : gmap string value)
    (field_variations : gmap string (list value)) (fields_combo : list string)
    (g g' : rng) (case : gmap string value) :
  combination_case default_body field_variations fields_combo g = (inr case, g') →
  ∃ body,
    case !! "data" = Some (VDict body)
    ∧ dom body = dom default_body ∪ list_to_set fields_combo
    ∧ (∀ field, field ∈ fields_combo →
         ∃ variations v, field_variations !! field = Some variations
                         ∧ v ∈ variations ∧ body !! field = Some v)
    ∧ (∀ k, k ∉ fields_combo → body !! k = default_body !! k).
Proof.
  intros (_ & body & Hdata & Hbody)%combination_case_status.
  pose proof (combination_body_values _ _ _ _ _ _ Hbody) as Hvalues.
  exists body. split; [done|]. split; [|split; intros k Hk; by apply Hvalues].
  apply set_eq. intros k.
  rewrite elem_of_union, elem_of_list_to_set, !elem_of_dom.
  destruct (decide (k ∈ fields_combo)) as [Hk|Hk].
  - destruct (proj1 (Hvalues k) Hk) as (vs & v & _ & _ & ->). split; [by right|by eexists].
  - rewrite (proj2 (Hvalues k) Hk). split; [by left|]. by intros [?|?].
Qed.

Lemma complete_case_not_dict (default_body : gmap string value)
    (selected_fields : list string) (case : value) :
  (∀ d, case ≠ VDict d) →
  ∃ e, complete_case default_body selected_fields case = inl e.
Proof.
  intros Hcase. unfold complete_case.
  destruct (contains "data" case) as [e|has_data] eqn:Hc; cbn [res_bind];
    [by eexists|].
  destruct (if has_data then _ else _) as [e|body]; cbn [res_bind]; [by eexists|].
  destruct case as [| | | | |d]; try (by eexists). by destruct (Hcase d).
Qed.

(** X10: when [generate_test_cases] returns, its result is the generated
    cases, unchanged and in order, followed by the advisory scenarios in
    the order of the oracle's list, each completed on its own; nothing is
    removed or deduplicated. *)
Theorem generated_cases_come_first (requirements : RequirementsModel)
    (reply : res string) (selected_fields : list string)
    (default_body : gmap string value) (g : rng)
    (cases : list (gmap string value)) :
  generate_test_cases requirements reply selected_fields default_body g = Some cases →
  ∃ field_variations g1 automated g2 content gpt advisory,
    build_field_variations requirements selected_fields g = (inr field_variations, g1)
    ∧ generate_combination_test_cases default_body selected_fields field_variations g1
      = (inr automated, g2)
    ∧ reply = inr content
    ∧ json_loads content = inr (VList gpt)
    ∧ cases = automated ++ advisory
    ∧ Forall2 (fun scenario case =>
                 complete_case default_body selected_fields scenario = inr case)
              gpt advisory.
Proof.
  intros (fv & g1 & automated & g2 & content & gpt & Hfv & Hauto & Hreply & Hjson
          & Hcases)%generate_test_cases_Some.
  apply complete_cases_spec in Hcases.
  apply Forall2_app_inv_l in Hcases as (first & advisory & Hfirst & Hadv & ->).
  exists fv, g1, automated, g2, content, gpt, advisory.
  repeat (split; [done|]). split; [|done]. f_equal.
  pose proof (generate_combination_test_cases_built _ _ _ _ _ _ Hauto) as Hbuilt.
  by eapply complete_cases_built.
Qed.

(** X11: an oracle answer that parses to something other than a list, or
    to a list holding anything that is not an object, makes
    [generate_test_cases] return [None]: the generated cases are lost with
    it. *)
Theorem malformed_scenarios_abort (requirements : RequirementsModel)
    (content : string) (answer : value) (selected_fields : list string)
    (default_body : gmap string value) (g : rng) :
  json_loads content = inr answer →
  (∀ l, answer ≠ VList l)
  ∨ (∃ l scenario, answer = VList l ∧ scenario ∈ l ∧ ∀ d, scenario ≠ VDict d) →
  generate_test_cases requirements (inr content) selected_fields default_body g = None.
Proof.
  intros Hanswer Hbad.
  destruct (generate_test_cases _ _ _ _ _) as [cases|] eqn:Hgen; [|done].
  apply generate_test_cases_Some in Hgen
    as (fv & g1 & automated & g2 & content' & gpt & _ & _ & [= <-] & Hjson & Hcases).
  rewrite Hanswer in Hjson. injection Hjson as ->.
  destruct Hbad as [Hbad|(l & scenario & [= <-] & Hin & Hscenario)];
    [by destruct (Hbad gpt)|].
  apply complete_cases_spec in Hcases.
  assert (scenario ∈ (VDict <$> automated) ++ gpt) as Hin'
    by (apply elem_of_app; by right).
  apply list_elem_of_lookup in Hin' as [i Hi].
  destruct (Forall2_lookup_l _ _ _ _ _ Hcases Hi) as (case' & _ & Hcase).
  destruct (complete_case_not_dict default_body selected_fields scenario Hscenario)
    as [e He].
  congruence.
Qed.

(** ** Executor, continued *)

Lemma on_error_result_of (case0 case : gmap string value) (e : exn) (w : World) :
  (∀ k, k ≠ "actual_status_code" → k ≠ "actual_response" → k ≠ "test_result" →
        case !! k = case0 !! k) →
  result_of case0 (on_error case e w).1
  ∧ counted_as_passed (on_error case e w).1 = false.
Proof.
  intros Hframe. destruct (on_error_result case e w) as (Hs & Hr & (tr & Ht & Hp & _) & Hk).
  split.
  - split; [by eexists|]. split; [by eexists|]. split; [by exists tr, false|].
    intros k H1 H2 H3. rewrite Hk by done. by apply Hframe.
  - unfold counted_as_passed. by rewrite Ht, Hp.
Qed.

Lemma execute_case_result_of (endpoint : string) (case : gmap string value) (w : World) :
  result_of case (execute_case endpoint case w).1.
Proof.
  unfold execute_case. destruct (perform endpoint case w) as [[e|r] w1].
  { by apply on_error_result_of. }
  assert (∀ k, k ≠ "actual_status_code" → k ≠ "actual_response" → k ≠ "test_result" →
               record_response case r !! k = case !! k) as Hrec.
  { intros k H1 H2 _. unfold record_response. by rewrite !lookup_insert_ne. }
  unfold score.
  destruct (dict_getitem (record_response case r) "expected_status_code")
    as [e|expected].
  { by apply on_error_result_of. }
  destruct (now w1) as [stamp w2]. cbn [fst].
  split; [|split; [|split]].
  - rewrite lookup_insert_ne by done. unfold record_response.
    rewrite lookup_insert_ne by done. rewrite lookup_insert_eq. by eexists.
  - rewrite lookup_insert_ne by done. unfold record_response.
    rewrite lookup_insert_eq. by eexists.
  - rewrite lookup_insert_eq. eexists _, _. split; [done|]. by simplify_map_eq.
  - intros k H1 H2 H3. rewrite lookup_insert_ne by done. by apply Hrec.
Qed.

(** X12: the executor returns one result per case, in order; each result
    is its case with [actual_status_code], [actual_response] and a
    [test_result] holding a Boolean [passed] added, and every other entry
    (name, method, data, expected status, ...) exactly as it was. *)
Theorem executor_adds_three_entries (endpoint : string)
    (test_cases : list (gmap string value)) (w : World) :
  Forall2 result_of test_cases (execute_test_cases endpoint test_cases w).1.
Proof.
  eapply Forall2_impl; [apply execute_test_cases_each|].
  intros case result [w0 ->]. apply execute_case_result_of.
Qed.

(** X13: a case whose method, once lowered, is none of get, post, put,
    delete is recorded as an error and no request is sent for it: the
    world only sees the clock being read.  For a method written in ASCII
    the error recorded is "Unsupported method: <lowered method>". *)
Theorem unsupported_method_not_sent (endpoint : string) (case : gmap string value)
    (method : string) (data : value) (w : World) :
  case !! "method" = Some (VStr method) →
  case !! "data" = Some data →
  lower method ≠ "get" → lower method ≠ "post" →
  lower method ≠ "put" → lower method ≠ "delete" →
  (execute_case endpoint case w).2 = (now w).2
  ∧ (execute_case endpoint case w).1 !! "actual_status_code" = Some (VStr "Error")
  ∧ (∃ tr, (execute_case endpoint case w).1 !! "test_result" = Some (VDict tr)
           ∧ tr !! "passed" = Some (VBool false))
  ∧ (isascii method = true →
     execute_case endpoint case w
     = on_error case (Raise ValueError ("Unsupported method: " +:+ lower method)) w
     ∧ (execute_case endpoint case w).1 !! "actual_response"
       = Some (VStr ("Unsupported method: " +:+ lower method))).
Proof.
  intros Hm Hd Hget Hpost Hput Hdelete.
  assert (execute_case endpoint case w
          = on_error case (Raise ValueError ("Unsupported method: " +:+ lower method)) w)
    as ->.
  { unfold execute_case, perform, dict_getitem, getitem. rewrite Hm, Hd.
    unfold st_bind, st_lift, lower_method, build_request.
    by rewrite !bool_decide_eq_false_2 by done. }
  destruct (on_error_result case (Raise ValueError ("Unsupported method: " +:+ lower method))
              w) as (Hs & Hr & (tr & Ht & Hp & _) & _).
  split; [unfold on_error; by destruct (now w)|].
  split; [done|]. split; [by exists tr|]. by intros _.
Qed.

(** ** Executor and report together *)

Lemma count_passed_mappings (results : list (gmap string value)) (n : nat) :
  Forall (fun test => ∀ v, test !! "test_result" = Some v → ∃ tr, v = VDict tr) results →
  res_fold (fun n test =>
              res_bind (passed test) (fun p => inr (if p : bool then S n else n)))
           n results
  = inr (n + length (List.filter counted_as_passed results)).
Proof.
  intros Hwf. revert n. induction Hwf as [|test results Hmap _ IH];
    intros n; simpl; [by rewrite Nat.add_0_r|].
  rewrite (passed_counted test Hmap). simpl. rewrite IH.
  destruct (counted_as_passed test); simpl; f_equal; lia.
Qed.

Lemma result_of_mapping (case result : gmap string value) :
  result_of case result →
  ∀ v, result !! "test_result" = Some v → ∃ tr, v = VDict tr.
Proof. intros (_ & _ & (tr & p & Ht & _) & _) v Hv. exists tr. congruence. Qed.

Lemma result_of_executed (case result : gmap string value) :
  is_Some (case !! "name") → is_Some (case !! "expected_status_code") →
  result_of case result → executed_case result.
Proof.
  intros Hn He Hres. pose proof Hres as (Hs & _ & _ & Hk).
  split; [by rewrite Hk|]. split; [by rewrite Hk|]. split; [done|].
  by eapply result_of_mapping.
Qed.

(** X14: executing test cases that all carry a name and an expected status
    and reporting on the results cannot fail: the report is produced, it
    holds the results as the executor returned them, and its total is the
    number of test cases, split into passed and failed. *)
Theorem executed_suite_is_reported (endpoint : string)
    (test_cases : list (gmap string value)) (w w' : World) :
  Forall (fun case => is_Some (case !! "name")
                      ∧ is_Some (case !! "expected_status_code")) test_cases →
  ∃ rep,
    generate_test_report (execute_test_cases endpoint test_cases w).1 w' = inr rep
    ∧ test_results rep = (execute_test_cases endpoint test_cases w).1
    ∧ total_tests rep = length test_cases
    ∧ total_tests rep = passed_tests rep + failed_tests rep
    ∧ length (failed_tests_summary rep) = failed_tests rep.
Proof.
  intros Hcases.
  assert (Forall2 result_of test_cases (execute_test_cases endpoint test_cases w).1)
    as Hres.
  { eapply Forall2_impl; [apply execute_test_cases_each|].
    intros c r [w0 ->]. apply execute_case_result_of. }
  set (results := (execute_test_cases endpoint test_cases w).1) in *.
  assert (Forall executed_case results) as Hwf.
  { apply Forall_forall. intros result Hin.
    apply list_elem_of_lookup in Hin as [i Hi].
    destruct (Forall2_lookup_r _ _ _ _ _ Hres Hi) as (case & Hc & Hr).
    apply list_elem_of_lookup_2 in Hc.
    rewrite Forall_forall in Hcases. destruct (Hcases case Hc) as [Hn He].
    by eapply result_of_executed. }
  unfold generate_test_report, count_passed, failed_summary.
  rewrite (count_passed_spec results 0 Hwf). cbn [res_bind].
  destruct (failed_summary_spec results [] Hwf) as (entries & -> & Hentries).
  cbn [res_bind]. eexists. split; [reflexivity|]. cbn.
  pose proof (filter_split_length counted_as_passed results) as Hlen.
  apply Forall2_length in Hentries. apply Forall2_length in Hres.
  repeat split; lia.
Qed.

(** A loop raises, with an exception of a given sort, when one of its
    elements always makes the body raise and the body only raises
    exceptions of that sort on the elements of the list. *)
Lemma res_fold_raises {A B : Type} (sort : exn -> Prop) (body : B -> A -> res B)
    (xs : list A) (x : A) :
  x ∈ xs →
  (∀ acc, ∃ e, body acc x = inl e) →
  (∀ acc y e, y ∈ xs → body acc y = inl e → sort e) →
  ∀ acc, ∃ e, res_fold body acc xs = inl e ∧ sort e.
Proof.
  intros Hx Hraise Hsort. induction xs as [|y xs IH]; intros acc; simpl.
  - by apply elem_of_nil in Hx.
  - destruct (body acc y) as [e|acc'] eqn:Hy; simpl.
    + exists e. split; [done|]. eapply Hsort; [left|done].
    + apply elem_of_cons in Hx as [->|Hx].
      * destruct (Hraise acc) as [e He]. congruence.
      * apply IH; [done|]. intros acc0 z e Hz. apply Hsort. by right.
Qed.

(** X15: one test case without [expected_status_code] (an advisory
    scenario that leaves it out, say) is still sent and recorded as an
    error, and then makes the report of the whole run raise KeyError: no
    report is produced for any case. *)
Theorem missing_expected_status_breaks_report (endpoint : string)
    (test_cases : list (gmap string value)) (case : gmap string value) (w w' : World) :
  case ∈ test_cases →
  case !! "expected_status_code" = None →
  ∃ e, generate_test_report (execute_test_cases endpoint test_cases w).1 w' = inl e
       ∧ exn_type e = KeyError.
Proof.
  intros Hin Hmissing.
  assert (Forall2 result_of test_cases (execute_test_cases endpoint test_cases w).1)
    as Hres.
  { eapply Forall2_impl; [apply execute_test_cases_each|].
    intros c r [w0 ->]. apply execute_case_result_of. }
  pose proof (execute_test_cases_each endpoint test_cases w) as Heach.
  set (results := (execute_test_cases endpoint test_cases w).1) in *.
  assert (Forall (fun test => ∀ v, test !! "test_result" = Some v → ∃ tr, v = VDict tr)
                 results) as Hmap.
  { apply Forall_forall. intros result Hr. apply list_elem_of_lookup in Hr as [i Hi].
    destruct (Forall2_lookup_r _ _ _ _ _ Hres Hi) as (c & _ & Hc).
    by eapply result_of_mapping. }
  apply list_elem_of_lookup in Hin as [i Hi].
  destruct (Forall2_lookup_l _ _ _ _ _ Heach Hi) as (result & Hri & w0 & Hresult).
  assert (result !! "expected_status_code" = None ∧ counted_as_passed result = false)
    as [Hexp Hfailed].
  { rewrite Hresult. unfold execute_case.
    destruct (perform endpoint case w0) as [[e|r] w1].
    - destruct (on_error_result_of case case e w1) as [(_ & _ & _ & Hk) Hp]; [done|].
      split; [|done]. by rewrite Hk.
    - unfold score, dict_getitem, getitem, record_response.
      rewrite !lookup_insert_ne by done. rewrite Hmissing.
      destruct (on_error_result_of case
                  (<["actual_response" := default (VStr (text r)) (json_body r)]>
                     (<["actual_status_code" := VInt (status_code r)]> case))
                  (Raise KeyError (repr "expected_status_code")) w1)
        as [(_ & _ & _ & Hk) Hp].
      { intros k H1 H2 _. by rewrite !lookup_insert_ne. }
      split; [|done]. by rewrite Hk. }
  unfold generate_test_report, count_passed, failed_summary.
  rewrite (count_passed_mappings results 0 Hmap). cbn [res_bind].
  destruct (res_fold_raises (fun e => exn_type e = KeyError)
              (fun acc test =>
                 res_bind (passed test)
                   (fun p => if p : bool then inr acc
                             else res_bind (failed_summary_entry test)
                                    (fun entry => inr (acc ++ [entry]))))
              results result) with (acc := @nil failed_entry) as (e & -> & He).
  - by eapply list_elem_of_lookup_2.
  - intros acc. rewrite (passed_counted result) by (by eapply (Forall_lookup_1 _ _ _ _ Hmap)).
    rewrite Hfailed. cbn [res_bind]. unfold failed_summary_entry, dict_getitem, getitem.
    rewrite Hexp. destruct (result !! "name"); cbn [res_bind]; by eexists.
  - intros acc test e Htest.
    rewrite (passed_counted test)
      by (rewrite Forall_forall in Hmap; by apply Hmap).
    cbn [res_bind]. destruct (counted_as_passed test); [done|].
    unfold failed_summary_entry, dict_getitem, getitem, test_result_entry.
    destruct (test !! "name"); cbn [res_bind]; [|by intros [= <-]].
    destruct (test !! "expected_status_code"); cbn [res_bind]; [|by intros [= <-]].
    destruct (test !! "actual_status_code"); cbn [res_bind]; [|by intros [= <-]].
    destruct (test !! "test_result") as [stored|] eqn:Hstored;
      cbn [default from_option id].
    + rewrite Forall_forall in Hmap.
      destruct (Hmap test Htest stored Hstored) as [tr ->]. by cbn.
    + by cbn.
  - by exists e.
Qed.

(** ** Analysis of the document *)

Lemma and_then_true (a b : res bool) :
  and_then a b = inr true → a = inr true ∧ b = inr true.
Proof. unfold and_then. destruct a as [e|[]]; cbn; [done| |done]. by intros ->. Qed.

Lemma contains_getitem_dict (v : value) (k : string) (x : value) :
  getitem v k = inr x → ∃ d, v = VDict d ∧ d !! k = Some x.
Proof.
  destruct v as [| | | | |d]; try done. cbn.
  destruct (d !! k) as [y|] eqn:Hk; [|done]. intros [= <-]. by exists d.
Qed.

(** X16: the analysis succeeds only along one route through the document:
    the endpoint's path has a POST operation, whose JSON request body
    declares a schema by a non-empty [$ref]; the schema is the entry of
    [components.schemas] named by the last segment of the reference; and
    the sample data has exactly the names of that schema's properties. *)
Theorem analysis_route (openapi_spec : value) (path : string)
    (sample_data : gmap string FieldSpec) (info : endpoint_info) :
  analyze_document openapi_spec path = inr (AnalysisOk sample_data info) →
  ∃ post_info schema_decl schema_ref schema properties required,
    getpath openapi_spec ["paths"; path; "post"] = inr post_info
    ∧ getpath post_info ["requestBody"; "content"; "application/json"; "schema"]
      = inr (VDict schema_decl)
    ∧ schema_decl !! "$ref" = Some (VStr schema_ref) ∧ schema_ref ≠ ""
    ∧ ei_schema_name info = List.last (split_on slash schema_ref) ""
    ∧ getpath openapi_spec ["components"; "schemas"; ei_schema_name info]
      = inr (VDict schema)
    ∧ schema !! "properties" = Some (VDict properties)
    ∧ required = default (VList []) (schema !! "required")
    ∧ process_properties required properties = inr sample_data
    ∧ dom sample_data = dom properties.
Proof.
  unfold analyze_document.
  destruct (and_then _ _) as [e|[]] eqn:Hlisted; cbn [res_bind]; [done| |done].
  clear Hlisted.
  destruct (getitem openapi_spec "paths") as [e|paths] eqn:Hpaths;
    cbn [res_bind]; [done|].
  destruct (getitem paths path) as [e|path_info] eqn:Hpath; cbn [res_bind]; [done|].
  destruct (contains "post" path_info) as [e|[]]; cbn [res_bind]; [done| |done].
  destruct (getitem path_info "post") as [e|post_info] eqn:Hpost;
    cbn [res_bind]; [done|].
  unfold analyze_operation.
  destruct (has_request_schema post_info) as [e|[]]; cbn [res_bind]; [done| |done].
  destruct (getitem post_info "requestBody") as [e|rb] eqn:Hrb; cbn [res_bind]; [done|].
  destruct (getitem rb "content") as [e|content] eqn:Hcontent; cbn [res_bind]; [done|].
  destruct (getitem content "application/json") as [e|body] eqn:Hbody;
    cbn [res_bind]; [done|].
  destruct (getitem body "schema") as [e|decl] eqn:Hdecl; cbn [res_bind]; [done|].
  destruct decl as [| | | | |schema_decl]; try done. cbn [get_method res_bind].
  destruct (truthy (default VNone (schema_decl !! "$ref"))) eqn:Htruthy; [|done].
  destruct (schema_decl !! "$ref") as [ref|] eqn:Href; [|done].
  cbn [default from_option id] in *.
  destruct ref as [| | |schema_ref| |]; try done. cbn [schema_name_of res_bind].
  destruct (getitem openapi_spec "components") as [e|components] eqn:Hcomp;
    cbn [res_bind]; [done|].
  destruct (getitem components "schemas") as [e|schemas] eqn:Hschemas;
    cbn [res_bind]; [done|].
  destruct (getitem schemas _) as [e|schema0] eqn:Hschema; cbn [res_bind]; [done|].
  unfold analyze_schema.
  destruct (contains "properties" schema0) as [e|[]]; cbn [res_bind]; [done| |done].
  destruct (get_method schema0 "required" (VList [])) as [e|required] eqn:Hreq;
    cbn [res_bind]; [done|].
  destruct schema0 as [| | | | |schema]; try done.
  cbn [get_method] in Hreq. injection Hreq as <-.
  destruct (getitem (VDict schema) "properties") as [e|props] eqn:Hprops;
    cbn [res_bind]; [done|].
  destruct props as [| | | | |properties]; try done. cbn [items_of res_bind].
  destruct (process_properties _ properties) as [e|sample] eqn:Hsample;
    cbn [res_bind get_method]; [done|].
  destruct post_info as [| | | | |post]; try done. cbn [get_method res_bind].
  intros [= <- <-]. cbn [ei_schema_name].
  exists (VDict post), schema_decl, schema_ref, schema, properties,
         (default (VList []) (schema !! "required")).
  assert (∀ (v : value) keys out,
            res_fold getitem v keys = inr out → getpath v keys = inr out) as Hpathto
    by done.
  split.
  { apply Hpathto. cbn [res_fold]. rewrite Hpaths. cbn [res_bind].
    rewrite Hpath. cbn [res_bind]. by rewrite Hpost. }
  split.
  { apply Hpathto. cbn [res_fold]. rewrite Hrb. cbn [res_bind].
    rewrite Hcontent. cbn [res_bind]. rewrite Hbody. cbn [res_bind]. by rewrite Hdecl. }
  split; [done|]. split.
  { intros ->. cbn in Htruthy. by rewrite bool_decide_eq_true_2 in Htruthy. }
  split; [done|].
  split.
  { apply Hpathto. cbn [res_fold]. rewrite Hcomp. cbn [res_bind].
    rewrite Hschemas. cbn [res_bind]. by rewrite Hschema. }
  split.
  { apply contains_getitem_dict in Hprops as (d & [= <-] & Hd). done. }
  split; [done|]. split; [done|]. by eapply process_properties_keys.
Qed.

(** X17: requirements are returned only for a fetch of
    [<base>/openapi.json] that is answered with status 200 and a JSON
    document analysed with success; they are the sorted sample data of that
    document, and their [endpoint_type] is "users" whatever the endpoint. *)
Theorem requirements_come_from_the_document
    (fetch : string -> st World response) (json_error : response -> string)
    (endpoint : string) (w w' : World) (requirements : requirements_analysis) :
  analyze_endpoint_requirements fetch json_error endpoint w = (Some requirements, w') →
  ∃ r openapi_spec sample_data info,
    fetch (base_url endpoint +:+ "/openapi.json") w = (inr r, w')
    ∧ status_code r = 200%Z
    ∧ json_body r = Some openapi_spec
    ∧ analyze_document openapi_spec (relative_path endpoint)
      = inr (AnalysisOk sample_data info)
    ∧ ra_model requirements = sort_fields sample_data
    ∧ ra_endpoint_type requirements = "users"
    ∧ ra_summary requirements = ei_summary info
    ∧ ra_description requirements = ei_description info
    ∧ ra_tags requirements = ei_tags info.
Proof.
  unfold analyze_endpoint_requirements, analyze_endpoint_structure, openapi_url.
  destruct (fetch _ w) as [[e|r] w1] eqn:Hfetch; [done|].
  destruct (status_code r =? 200)%Z eqn:Hstatus; [|done].
  destruct (json_body r) as [openapi_spec|] eqn:Hjson; [|done].
  destruct (analyze_document openapi_spec (relative_path endpoint))
    as [e|[sample_data info| | |]] eqn:Hdoc; try done.
  intros [= <- <-]. exists r, openapi_spec, sample_data, info.
  repeat split; try done. by apply Z.eqb_eq.
Qed.

(** ** The complete suite *)

Lemma generate_test_report_total (results : list (gmap string value)) (w : World)
    (rep : report) :
  generate_test_report results w = inr rep →
  test_results rep = results ∧ total_tests rep = length results.
Proof.
  unfold generate_test_report.
  destruct (count_passed results) as [e|n]; cbn [res_bind]; [done|].
  destruct (failed_summary results) as [e|entries]; cbn [res_bind]; [done|].
  by intros [= <-].
Qed.

(** X18: when the suite ends with a report, the requirements were
    analysed, the user's selection was not empty, the rules answer was a
    true value, and the report covers every generated test case: its
    results are the executor's, one per generated case. *)
Theorem suite_report_covers_every_case
    (fetch : string -> st World response) (json_error : response -> string)
    (endpoint : string) (selection : option (list string))
    (rules_reply cases_reply : res string) (g : rng) (w w' : World)
    (selected_fields : list string) (default_body : gmap string value)
    (requirements : requirements_analysis) (validation_rules : value) (rep : report) :
  run_complete_test_suite fetch json_error endpoint selection rules_reply cases_reply g w
  = (inr (SuiteReport selected_fields default_body requirements validation_rules rep), w') →
  ∃ w1 test_cases,
    analyze_endpoint_requirements fetch json_error endpoint w = (Some requirements, w1)
    ∧ selection = Some selected_fields ∧ selected_fields ≠ []
    ∧ default_body = get_default_request_body (ra_model requirements)
    ∧ generate_validation_rules rules_reply = inr (Some validation_rules)
    ∧ truthy validation_rules = true
    ∧ generate_test_cases (ra_model requirements) cases_reply selected_fields
        default_body g = Some test_cases
    ∧ test_cases ≠ []
    ∧ test_results rep = (execute_test_cases endpoint test_cases w1).1
    ∧ total_tests rep = length test_cases.
Proof.
  unfold run_complete_test_suite.
  destruct (analyze_endpoint_requirements fetch json_error endpoint w)
    as [[ra|] w1] eqn:Hreq; [|done].
  destruct selection as [[|f fs]|]; [done| |done].
  destruct (generate_validation_rules rules_reply) as [e|[rules|]] eqn:Hrules;
    [done| |done].
  destruct (truthy rules) eqn:Htruthy; [|done].
  destruct (generate_test_cases _ _ _ _ _) as [[|case cases]|] eqn:Hcases;
    [done| |done].
  pose proof (execute_test_cases_each endpoint (case :: cases) w1) as Heach.
  destruct (execute_test_cases endpoint (case :: cases) w1) as [results w2] eqn:Hexec.
  destruct (generate_test_report results w2) as [e|final_report] eqn:Hreport; [done|].
  intros [= <- <- <- <- <- <-].
  apply generate_test_report_total in Hreport as [Hresults Htotal].
  exists w1, (case :: cases). repeat (split; [done|]).
  split; [by rewrite Hexec|].
  rewrite Htotal. symmetry. by apply Forall2_length in Heach.
Qed.

(** X19: with the requirements analysed and fields selected, the two
    oracle calls are treated differently.  An exception raised by the
    rules call leaves the suite as an exception; a rules answer that is
    not JSON, or that is a false JSON value (an empty object, say), ends
    the suite with "Failed to generate validation rules"; and when no test
    case can be generated the suite ends with "Failed to generate test
    cases".  In all these cases no test request has been sent. *)
Theorem suite_stops_before_execution
    (fetch : string -> st World response) (json_error : response -> string)
    (endpoint : string) (field : string) (fields : list string)
    (rules_reply cases_reply : res string) (g : rng) (w w1 : World)
    (requirements : requirements_analysis) :
  analyze_endpoint_requirements fetch json_error endpoint w = (Some requirements, w1) →
  let suite := run_complete_test_suite fetch json_error endpoint
                 (Some (field :: fields)) rules_reply cases_reply g w in
  (∀ e, rules_reply = inl e → suite = (inl e, w1)) ∧
  (∀ content,
     rules_reply = inr content →
     (∃ e, json_loads content = inl e ∧ exn_type e = JSONDecodeError)
     ∨ (∃ rules, json_loads content = inr rules ∧ truthy rules = false) →
     suite = (inr (SuiteMessage "Failed to generate validation rules"), w1)) ∧
  (∀ content rules,
     rules_reply = inr content → json_loads content = inr rules →
     truthy rules = true →
     generate_test_cases (ra_model requirements) cases_reply (field :: fields)
       (get_default_request_body (ra_model requirements)) g = None →
     suite = (inr (SuiteMessage "Failed to generate test cases"), w1)).
Proof.
  intros Hreq suite. subst suite. unfold run_complete_test_suite. rewrite Hreq.
  split; [|split].
  - by intros e ->.
  - intros content -> [(e & He & Hkind)|(rules & Hrules & Hfalse)];
      unfold generate_validation_rules; cbn [res_bind].
    + by rewrite He, Hkind.
    + by rewrite Hrules, Hfalse.
  - intros content rules -> Hrules Htrue Hnone.
    unfold generate_validation_rules. cbn [res_bind]. by rewrite Hrules, Htrue, Hnone.
Qed.

(** ** Size of the generated suite *)

(** X20: when every selected field has a non-empty variation list, the
    builder returns, and the number of cases it returns is the total
    number of variation values of the selected fields plus
    3 × (C(k,2) + C(k,3)) for k selected fields. *)
Theorem generated_suite_size (default_body : gmap string value)
    (selected_fields : list string) (field_variations : gmap string (list value))
    (g : rng) :
  (∀ field, field ∈ selected_fields →
     ∃ variations, field_variations !! field = Some variations ∧ variations ≠ []) →
  ∃ automated g',
    generate_combination_test_cases default_body selected_fields field_variations g
    = (inr automated, g')
    ∧ length automated
      = sum_list ((fun field => length (default [] (field_variations !! field)))
                    <$> selected_fields)
        + 3 * (choose (length selected_fields) 2 + choose (length selected_fields) 3).
Proof.
  intros Hvs. unfold generate_combination_test_cases, st_bind at 1. unfold st_lift.
  destruct (single_field_pass default_body selected_fields field_variations [])
    as [e|singles] eqn:Hsingle.
  { assert (single_field_pass default_body selected_fields field_variations []
            = inr ([] ++ (field ← selected_fields;
                          single_field_case default_body field
                            <$> default [] (field_variations !! field)))) as Hok.
    { apply single_field_pass_spec. split; [|done].
      intros field Hin. destruct (Hvs field Hin) as (vs & -> & _). by eexists. }
    congruence. }
  apply single_field_pass_spec in Hsingle as [_ ->]. unfold combination_pass.
  destruct (st_fold_append_total
              (combination_case default_body field_variations) (fun _ => True)
              (combination_rounds selected_fields)
              ([] ++ (field ← selected_fields;
                      single_field_case default_body field
                        <$> default [] (field_variations !! field))) g)
    as (new & g' & Hrun & Hlen & _).
  { intros combo t Hcombo.
    destruct (combination_body_total default_body field_variations combo t)
      as (body & t' & Hbody).
    { intros field Hf. apply Hvs. by eapply combination_rounds_elem. }
    unfold combination_case. rewrite (st_bind_inr _ _ t t' body Hbody).
    by eexists _, _. }
  eexists _, g'. split; [exact Hrun|].
  rewrite length_app, Hlen, combination_rounds_length. f_equal. cbn [app].
  clear. induction selected_fields as [|f fs IH]; [done|].
  rewrite bind_cons, length_app, length_fmap, IH. done.
Qed.

End Engine.

(** * The definitions at work

    The statements below run the engine on the sample inputs, with the
    sample surroundings in place of the parameters. *)

(** ** Schema extraction and default body *)

(** C7, as stated, fails: an integer property leaves schema extraction
    without an example. *)
Lemma integer_property_has_no_example :
  ∃ spec,
    process_property (VList [VStr "age"]) "age" (VDict {[ "type" := VStr "integer" ]})
    = inr spec
    ∧ process_properties (VList [VStr "age"]) {[ "age" := VDict {[ "type" := VStr "integer" ]} ]}
      = inr {[ "age" := spec ]}
    ∧ fs_type spec = VStr "integer"
    ∧ fs_example spec = None.
Proof.
  exists {| fs_type := VStr "integer"; fs_description := VStr ""; fs_required := true;
            fs_format := None; fs_default := None; fs_example := None |}.
  split; [run|]. split; [run|]. by split.
Qed.

Lemma example_synthesis_by_rule_witness :
  process_property (VList [VStr "active"]) "active"
    (VDict {[ "type" := VStr "boolean"; "default" := VBool false ]})
  = inr {| fs_type := VStr "boolean"; fs_description := VStr ""; fs_required := true;
           fs_format := None; fs_default := Some (VBool false);
           fs_example := Some (VBool false) |}
  ∧ ∃ info : gmap string value,
      VDict {[ "type" := VStr "boolean"; "default" := VBool false ]} = VDict info
      ∧ Some (VBool false) = Some (default (VBool true) (info !! "default")).
Proof.
  assert (process_property (VList [VStr "active"]) "active"
            (VDict {[ "type" := VStr "boolean"; "default" := VBool false ]})
          = inr {| fs_type := VStr "boolean"; fs_description := VStr "";
                   fs_required := true; fs_format := None;
                   fs_default := Some (VBool false);
                   fs_example := Some (VBool false) |}) as H by run.
  split; [exact H|].
  destruct (proj1 (proj2 (example_synthesis_by_rule _ _ _ _ H)) eq_refl eq_refl)
    as (info & Hinfo & _ & Hexample & _).
  exists info. split; [exact Hinfo|exact Hexample].
Defined.

(** C1: the required field [tags], of type array, is missing from the
    default body, and nothing is raised. *)
Theorem default_body_omits_required_array :
  required_fields signup_requirements !! "tags" = Some tags_spec
  ∧ get_default_request_body signup_requirements = signup_body
  ∧ signup_body !! "tags" = None.
Proof. split; [|split]; run. Qed.

(** ** Test builder *)

Lemma single_field_expected_status_witness :
  single_field_pass sample_str signup_body ["password"] three_field_variations []
  = inr (single_field_case sample_str signup_body "password"
           <$> [VStr "P@ssw0rd123!"; VStr "weak"; VStr ""])
  ∧ single_field_case sample_str signup_body "password" (VStr "")
    !! "expected_status_code" = Some (VInt 400)
  ∧ single_field_case sample_str signup_body "password" (VStr "weak")
    !! "expected_status_code" = Some (VInt 200).
Proof.
  assert (single_field_pass sample_str signup_body ["password"] three_field_variations []
          = inr (single_field_case sample_str signup_body "password"
                   <$> [VStr "P@ssw0rd123!"; VStr "weak"; VStr ""])) as H by run.
  split; [exact H|].
  destruct (single_field_expected_status sample_str _ _ _ _ H) as [_ Hstatus]. split.
  - exact (proj1 (Hstatus "password" (VStr "")) eq_refl).
  - apply (proj2 (Hstatus "password" (VStr "weak"))). discriminate.
Defined.

Lemma three_fields_have_variations (field : string) :
  field ∈ ["email"; "name"; "password"] →
  ∃ variations, three_field_variations !! field = Some variations ∧ variations ≠ [].
Proof.
  intros Hin. repeat (apply elem_of_cons in Hin as [->|Hin]).
  - exists [VStr "amy@example.org"; VStr "invalid.email"]. split; [run|discriminate].
  - exists [VStr "Amy"; VStr "A"; VStr ""]. split; [run|discriminate].
  - exists [VStr "P@ssw0rd123!"; VStr "weak"; VStr ""]. split; [run|discriminate].
  - by apply elem_of_nil in Hin.
Defined.

Lemma combination_pass_count_witness :
  (∀ field, field ∈ ["email"; "name"; "password"] →
     ∃ variations, three_field_variations !! field = Some variations ∧ variations ≠ []) ∧
  ∃ new g',
    combination_pass signup_body ["email"; "name"; "password"]
      three_field_variations [] [4; 1; 5; 9; 2; 6]
    = (inr new, g')
    ∧ length new = 12.
Proof.
  split; [exact three_fields_have_variations|].
  destruct (combination_pass_count signup_body ["email"; "name"; "password"]
              three_field_variations [] [4; 1; 5; 9; 2; 6] three_fields_have_variations)
    as (new & g' & Hrun & Hlen & _).
  exists new, g'. split; [exact Hrun|exact Hlen].
Defined.

Lemma test_case_data_complete_witness :
  (∃ automated g' singles combos,
     generate_combination_test_cases sample_str signup_body ["email"; "name"]
       three_field_variations [3; 1; 4] = (inr automated, g')
     ∧ automated = singles ++ combos
     ∧ Forall (fun case =>
                 ∃ field v, field ∈ ["email"; "name"]
                            ∧ case = single_field_case sample_str signup_body field v
                            ∧ built_from signup_body [field] case
                            ∧ carries case field v) singles
     ∧ Forall2 (fun fields_combo case =>
                  case !! "name"
                  = Some (VStr ("Test combination of " +:+ join ", " fields_combo))
                  ∧ built_from signup_body fields_combo case
                  ∧ ∀ field, field ∈ fields_combo →
                      ∃ variations v, three_field_variations !! field = Some variations
                                      ∧ v ∈ variations ∧ carries case field v)
               (combination_rounds ["email"; "name"]) combos) ∧
  (∃ cases,
     generate_test_cases sample_fake sample_str sample_json_loads signup_requirements
       (inr "[{}]") ["email"] signup_body [2; 7; 1; 8] = Some cases
     ∧ length cases = 9
     ∧ Forall (built_from signup_body ["email"]) cases).
Proof.
  split.
  - assert (match generate_combination_test_cases sample_str signup_body
                    ["email"; "name"] three_field_variations [3; 1; 4] with
            | (inr _, _) => True
            | _ => False
            end) as Hok by vm_cast_no_check I.
    destruct (generate_combination_test_cases sample_str signup_body ["email"; "name"]
                three_field_variations [3; 1; 4]) as [[e|automated] g'] eqn:Hrun;
      [destruct Hok|].
    destruct (proj1 (test_case_data_complete sample_fake sample_str sample_json_loads
                       signup_requirements (inr "[{}]") ["email"; "name"] signup_body [])
                    _ _ _ _ Hrun) as (singles & combos & Happ & Hsingles & Hcombos).
    exists automated, g', singles, combos. split; [reflexivity|].
    split; [exact Happ|]. split; [exact Hsingles|exact Hcombos].
  - assert (length <$> generate_test_cases sample_fake sample_str sample_json_loads
              signup_requirements (inr "[{}]") ["email"] signup_body [2; 7; 1; 8]
            = Some 9) as Hlen by run.
    destruct (generate_test_cases sample_fake sample_str sample_json_loads
                signup_requirements (inr "[{}]") ["email"] signup_body [2; 7; 1; 8])
      as [cases|] eqn:Hrun; [|discriminate Hlen].
    exists cases. split; [reflexivity|]. split; [by injection Hlen|].
    destruct (proj2 (test_case_data_complete sample_fake sample_str sample_json_loads
                       signup_requirements (inr "[{}]") ["email"] signup_body
                       [2; 7; 1; 8]) cases Hrun)
      as (fv & g1 & g2 & automated & content & scenarios & advisory
          & _ & _ & _ & _ & _ & Hall).
    exact Hall.
Defined.

(** C5, as stated, fails: with an answer that is not JSON the eight
    generated cases are lost and the run has no test case. *)
Lemma unparseable_answer_loses_generated_cases :
  ((let* field_variations :=
      build_field_variations sample_fake signup_requirements ["email"] in
    let* automated :=
      generate_combination_test_cases sample_str signup_body ["email"] field_variations in
    st_ret (length automated))%st [2; 7; 1; 8]).1 = inr 8
  ∧ generate_test_cases sample_fake sample_str sample_json_loads signup_requirements
      (inr "Here are some scenarios you could try.") ["email"] signup_body [2; 7; 1; 8]
    = None.
Proof. split; run. Qed.

Lemma oracle_failure_returns_none_witness :
  ((∃ e, (inr "Here are some scenarios you could try." : res string) = inl e)
   ∨ ∃ content e,
       (inr "Here are some scenarios you could try." : res string) = inr content
       ∧ sample_json_loads content = inl e)
  ∧ generate_test_cases sample_fake sample_str sample_json_loads signup_requirements
      (inr "Here are some scenarios you could try.") ["email"] signup_body [2; 7; 1; 8]
    = None.
Proof.
  assert ((∃ e, (inr "Here are some scenarios you could try." : res string) = inl e)
          ∨ ∃ content e,
              (inr "Here are some scenarios you could try." : res string) = inr content
              ∧ sample_json_loads content = inl e) as H.
  { right. exists "Here are some scenarios you could try.",
                  (Raise JSONDecodeError "Expecting value: line 1 column 1 (char 0)").
    split; [reflexivity|run]. }
  split; [exact H|].
  exact (oracle_failure_returns_none sample_fake sample_str sample_json_loads _ _ _ _ _ H).
Defined.

(** C6: with [email] and [bio] selected, [bio] has no variation and the
    whole generation fails, although [email] alone yields eight cases. *)
Theorem empty_variation_list_aborts_generation :
  (build_field_variations sample_fake signup_requirements ["email"; "bio"] [2; 7; 1; 8]).1
  = inr ({[ "email" := [VStr "amy@example.org"; VStr "amy@acme.com"; VStr "amy@gmail.com";
                        VStr "amy@acme.com"; VStr "invalid.email"; VStr "test@.com";
                        VStr "@domain.com"; VStr " @domain.com"];
            "bio" := [] ]} : gmap string (list value))
  ∧ generate_test_cases sample_fake sample_str sample_json_loads signup_requirements
      (inr "[]") ["email"; "bio"] signup_body [2; 7; 1; 8] = None
  ∧ length <$> generate_test_cases sample_fake sample_str sample_json_loads
                 signup_requirements (inr "[]") ["email"] signup_body [2; 7; 1; 8]
    = Some 8.
Proof. split; [|split]; run. Qed.

(** C9, as stated, fails: [role], declared by the scenario but not
    selected, does not reach the merged data. *)
Lemma unselected_scenario_field_is_dropped :
  complete_case signup_body ["email"] (VDict admin_scenario)
  = inr (<["data" := VDict {[ "email" := VStr "root@example.com"; "bio" := VStr "" ]}]>
           admin_scenario)
  ∧ ({[ "email" := VStr "root@example.com"; "bio" := VStr "" ]} : gmap string value)
    !! "role" = None
  ∧ admin_scenario !! "data"
    = Some (VDict {[ "email" := VStr "root@example.com"; "role" := VStr "admin" ]}).
Proof. split; [|split]; run. Qed.

Lemma scenario_merge_witness :
  admin_scenario !! "data"
  = Some (VDict {[ "email" := VStr "root@example.com"; "role" := VStr "admin" ]})
  ∧ ∃ body,
      complete_case signup_body ["email"] (VDict admin_scenario)
      = inr (<["data" := VDict body]> admin_scenario)
      ∧ body !! "email" = Some (VStr "root@example.com")
      ∧ body !! "bio" = Some (VStr "")
      ∧ body !! "role" = None.
Proof.
  assert (admin_scenario !! "data"
          = Some (VDict {[ "email" := VStr "root@example.com"; "role" := VStr "admin" ]}))
    as H by run.
  split; [exact H|].
  destruct (proj1 (scenario_merge signup_body ["email"] admin_scenario) _ H)
    as (body & Hrun & Hbody).
  exists body. split; [exact Hrun|].
  split; [|split]; rewrite Hbody; run.
Defined.

(** ** Executor and report *)

Lemma transport_failure_isolated_witness :
  signup_case "second" "amy@acme.com" 200 !! "method" = Some (VStr "POST")
  ∧ signup_case "second" "amy@acme.com" 200 !! "data"
    = Some (VDict (<["email" := VStr "amy@acme.com"]> signup_body))
  ∧ build_request sample_str signup_endpoint (lower "POST")
      (VDict (<["email" := VStr "amy@acme.com"]> signup_body))
    = inr (signup_request "amy@acme.com")
  ∧ sample_send (signup_request "amy@acme.com")
      {| script := [inl refused; inr ok_response]; ticks := 1 |}
    = (inl refused, {| script := [inr ok_response]; ticks := 1 |})
  ∧ (let result :=
       (execute_case sample_str sample_world sample_send sample_now signup_endpoint
          (signup_case "second" "amy@acme.com" 200)
          {| script := [inl refused; inr ok_response]; ticks := 1 |}).1 in
     result !! "actual_status_code" = Some (VStr "Error")
     ∧ result !! "actual_response" = Some (VStr "Connection refused")
     ∧ ∃ tr, result !! "test_result" = Some (VDict tr)
             ∧ tr !! "passed" = Some (VBool false)
             ∧ tr !! "error" = Some (VStr "Connection refused"))
  ∧ (let result :=
       (execute_case sample_str sample_world sample_send sample_now signup_endpoint
          (signup_case "third" "amy@gmail.com" 200)
          {| script := [inr ok_response]; ticks := 2 |}).1 in
     result !! "actual_status_code" = Some (VInt 200)
     ∧ ∃ tr, result !! "test_result" = Some (VDict tr)
             ∧ tr !! "passed" = Some (VBool true)).
Proof.
  assert (signup_case "second" "amy@acme.com" 200 !! "method" = Some (VStr "POST"))
    as Hm by run.
  assert (signup_case "second" "amy@acme.com" 200 !! "data"
          = Some (VDict (<["email" := VStr "amy@acme.com"]> signup_body))) as Hd by run.
  assert (build_request sample_str signup_endpoint (lower "POST")
            (VDict (<["email" := VStr "amy@acme.com"]> signup_body))
          = inr (signup_request "amy@acme.com")) as Hrq by run.
  assert (sample_send (signup_request "amy@acme.com")
            {| script := [inl refused; inr ok_response]; ticks := 1 |}
          = (inl refused, {| script := [inr ok_response]; ticks := 1 |})) as Hsend
    by reflexivity.
  do 4 (split; [assumption|]).
  destruct (transport_failure_isolated sample_str sample_world sample_send sample_now
              signup_endpoint) as (_ & Hfail & Hscore).
  split.
  - destruct (Hfail _ _ _ _ _ _ _ Hm Hd Hrq Hsend) as (Hs & Hr & Ht & _).
    split; [exact Hs|]. split; [exact Hr|exact Ht].
  - assert (signup_case "third" "amy@gmail.com" 200 !! "method" = Some (VStr "POST"))
      as Hm' by run.
    assert (signup_case "third" "amy@gmail.com" 200 !! "data"
            = Some (VDict (<["email" := VStr "amy@gmail.com"]> signup_body)))
      as Hd' by run.
    assert (build_request sample_str signup_endpoint (lower "POST")
              (VDict (<["email" := VStr "amy@gmail.com"]> signup_body))
            = inr (signup_request "amy@gmail.com")) as Hrq' by run.
    assert (signup_case "third" "amy@gmail.com" 200 !! "expected_status_code"
            = Some (VInt 200)) as He' by run.
    exact (Hscore (signup_case "third" "amy@gmail.com" 200)
             {| script := [inr ok_response]; ticks := 2 |} _ _ _ ok_response
             {| script := []; ticks := 2 |} _ Hm' Hd' Hrq' eq_refl He').
Defined.

(** The suite of three cases against a network that answers the first and
    the third request and refuses the second. *)
Example suite_with_one_refused_connection :
  (fun case => (case !! "name", case !! "actual_status_code",
                counted_as_passed case))
    <$> (execute_test_cases sample_str sample_world sample_send sample_now
           signup_endpoint
           [signup_case "first" "amy@example.org" 200;
            signup_case "second" "amy@acme.com" 200;
            signup_case "third" "amy@gmail.com" 400]
           {| script := [inr ok_response; inl refused; inr ok_response]; ticks := 0 |}).1
  = [(Some (VStr "first"), Some (VInt 200), true);
     (Some (VStr "second"), Some (VStr "Error"), false);
     (Some (VStr "third"), Some (VInt 200), false)].
Proof. run. Qed.




(** ** Addresses, analysis and requirements *)

Lemma endpoint_addresses_witness :
  (3 ≤ length (split_on slash signup_endpoint)
   ∧ base_url signup_endpoint +:+ relative_path signup_endpoint = signup_endpoint)
  ∧ (length (split_on slash "api/signup") < 3
     ∧ openapi_url "api/signup" = "/openapi.json"
     ∧ relative_path "api/signup" = "/api/signup").
Proof.
  assert (3 ≤ length (split_on slash signup_endpoint)) as H3 by (vm_compute; lia).
  assert (length (split_on slash "api/signup") < 3) as H2 by (vm_compute; lia).
  split.
  - split; [exact H3|]. exact (proj1 (endpoint_addresses signup_endpoint) H3).
  - split; [exact H2|].
    destruct (proj2 (endpoint_addresses "api/signup") H2) as (_ & Hurl & Hrel).
    split; [exact Hurl|exact Hrel].
Defined.

(** The addresses of the sample endpoint. *)
Example signup_addresses :
  openapi_url signup_endpoint = "https://api.example.test/openapi.json"
  ∧ relative_path signup_endpoint = "/api/signup".
Proof. split; run. Qed.

Lemma signup_sample_data_extracted :
  process_properties (VList [VStr "email"; VStr "tags"]) signup_properties
  = inr signup_sample_data.
Proof. run. Defined.

Lemma sample_data_follows_schema_witness :
  process_properties (VList [VStr "email"; VStr "tags"]) signup_properties
  = inr signup_sample_data
  ∧ dom signup_sample_data = dom signup_properties
  ∧ (fs_required tags_spec = true ↔ VStr "tags" ∈ [VStr "email"; VStr "tags"]).
Proof.
  split; [exact signup_sample_data_extracted|].
  destruct (sample_data_follows_schema _ _ _ signup_sample_data_extracted)
    as [Hdom Hentries].
  split; [exact Hdom|].
  assert (signup_sample_data !! "tags" = Some tags_spec) as Htags by run.
  exact (proj2 (Hentries "tags" tags_spec Htags)).
Defined.

(** [repr] on four names: plain, with an apostrophe, with both quotes,
    with a backslash. *)
Example repr_texts :
  repr "SignupForm" = "'SignupForm'"
  ∧ repr "O'Brien" = dquote +:+ "O'Brien" +:+ dquote
  ∧ repr ("O'Brien, " +:+ dquote +:+ "Pat" +:+ dquote)
    = "'O" +:+ String backslash "'Brien, " +:+ dquote +:+ "Pat" +:+ dquote +:+ "'"
  ∧ repr (String backslash "n") = "'" +:+ String backslash (String backslash "n'").
Proof. repeat split; run. Qed.

Lemma schema_reference_needed_witness :
  analyze_operation signup_document
    (VDict (signup_operation {[ "type" := VStr "object";
                                "properties" := VDict signup_properties ]}))
  = inr AnalysisNotFound
  ∧ ∃ e,
      analyze_operation
        (VDict {[ "components" := VDict {[ "schemas" := VDict ∅ ]} ]})
        (VDict (signup_operation {[ "$ref" := VStr "#/components/schemas/O'Brien" ]}))
      = inl e
      ∧ exn_type e = KeyError
      ∧ exn_msg e = dquote +:+ "O'Brien" +:+ dquote.
Proof.
  assert (∀ decl : gmap string value,
            signup_operation decl !! "requestBody"
            = Some (VDict {[ "content" := VDict {[
                               "application/json" := VDict {[ "schema" := VDict decl ]}
                             ]} ]})) as Hrb by (intros decl; run).
  assert (∀ decl : gmap string value,
            ({[ "content" := VDict {[
                  "application/json" := VDict {[ "schema" := VDict decl ]} ]} ]}
             : gmap string value) !! "content"
            = Some (VDict {[ "application/json" := VDict {[ "schema" := VDict decl ]} ]}))
    as Hcontent by (intros decl; run).
  assert (∀ decl : gmap string value,
            ({[ "application/json" := VDict {[ "schema" := VDict decl ]} ]}
             : gmap string value) !! "application/json"
            = Some (VDict {[ "schema" := VDict decl ]}))
    as Hbody by (intros decl; run).
  assert (∀ decl : gmap string value,
            ({[ "schema" := VDict decl ]} : gmap string value) !! "schema"
            = Some (VDict decl)) as Hschema by (intros decl; run).
  split.
  - apply (proj1 (schema_reference_needed signup_document _ _ _ _ _
                    (Hrb _) (Hcontent _) (Hbody _) (Hschema _))).
    run.
  - assert (({[ "$ref" := VStr "#/components/schemas/O'Brien" ]} : gmap string value)
            !! "$ref" = Some (VStr "#/components/schemas/O'Brien")) as Href by run.
    assert (({[ "components" := VDict {[ "schemas" := VDict ∅ ]} ]}
             : gmap string value) !! "components"
            = Some (VDict {[ "schemas" := VDict ∅ ]})) as Hc by run.
    assert (({[ "schemas" := VDict ∅ ]} : gmap string value) !! "schemas"
            = Some (VDict ∅)) as Hs by run.
    assert ((∅ : gmap string value)
            !! List.last (split_on slash "#/components/schemas/O'Brien") ""
            = None) as Hmissing by run.
    assert ("#/components/schemas/O'Brien" ≠ "") as Hne by discriminate.
    destruct (proj2 (schema_reference_needed
                       (VDict {[ "components" := VDict {[ "schemas" := VDict ∅ ]} ]})
                       _ _ _ _ _ (Hrb _) (Hcontent _) (Hbody _) (Hschema _))
                    "#/components/schemas/O'Brien"
                    {[ "components" := VDict {[ "schemas" := VDict ∅ ]} ]}
                    {[ "schemas" := VDict ∅ ]} ∅ Href Hne eq_refl Hc Hs Hmissing)
      as (e & Hrun & Hkind & Hmsg).
    exists e. split; [exact Hrun|]. split; [exact Hkind|].
    assert (isascii (List.last (split_on slash "#/components/schemas/O'Brien") "")
            = true) as Hascii by run.
    rewrite (Hmsg Hascii). run.
Defined.

Lemma sort_fields_partition_witness :
  (signup_sample_data !! "bio" = Some bio_spec ∧ fs_required bio_spec = false)
  ∧ optional_fields (sort_fields signup_sample_data) !! "bio" = Some bio_spec
  ∧ sort_fields signup_sample_data = signup_requirements.
Proof.
  assert (signup_sample_data !! "bio" = Some bio_spec ∧ fs_required bio_spec = false)
    as H by (split; run).
  split; [exact H|]. split; [|run].
  exact (proj2 (proj2 (sort_fields_partition signup_sample_data "bio" bio_spec)) H).
Defined.

Lemma extracted_default_body_witness :
  process_properties (VList [VStr "email"; VStr "tags"]) signup_properties
  = inr signup_sample_data
  ∧ signup_sample_data !! "tags" = Some tags_spec
  ∧ fs_required tags_spec = true
  ∧ get_default_request_body (sort_fields signup_sample_data) !! "tags" = None.
Proof.
  assert (signup_sample_data !! "tags" = Some tags_spec) as Htags by run.
  split; [exact signup_sample_data_extracted|]. split; [exact Htags|].
  split; [reflexivity|].
  destruct (extracted_default_body _ _ _ signup_sample_data_extracted) as [_ Hbody].
  apply (proj2 (Hbody "tags" tags_spec Htags eq_refl)).
  repeat split; discriminate.
Defined.

Lemma analysis_route_witness :
  analyze_document signup_document "/api/signup"
  = inr (AnalysisOk signup_sample_data
           {| ei_summary := VStr "Sign up"; ei_description := VStr "";
              ei_schema_name := "SignupForm"; ei_responses := VDict ∅;
              ei_tags := VList [VStr "users"] |})
  ∧ ∃ schema properties,
      getpath signup_document ["components"; "schemas"; "SignupForm"]
      = inr (VDict schema)
      ∧ schema !! "properties" = Some (VDict properties)
      ∧ dom signup_sample_data = dom properties.
Proof.
  assert (analyze_document signup_document "/api/signup"
          = inr (AnalysisOk signup_sample_data
                   {| ei_summary := VStr "Sign up"; ei_description := VStr "";
                      ei_schema_name := "SignupForm"; ei_responses := VDict ∅;
                      ei_tags := VList [VStr "users"] |})) as H by run.
  split; [exact H|].
  destruct (analysis_route _ _ _ _ H)
    as (post_info & decl & ref & schema & properties & required & _ & _ & _ & _ & _
        & Hschema & Hprops & _ & _ & Hdom).
  exists schema, properties. split; [exact Hschema|]. split; [exact Hprops|exact Hdom].
Defined.

Lemma signup_requirements_analysed (w : sample_world) :
  analyze_endpoint_requirements sample_world sample_fetch sample_json_error
    signup_endpoint w = (Some signup_analysis, w).
Proof. run. Defined.

Lemma requirements_come_from_the_document_witness :
  analyze_endpoint_requirements sample_world sample_fetch sample_json_error
    signup_endpoint {| script := []; ticks := 0 |}
  = (Some signup_analysis, {| script := []; ticks := 0 |})
  ∧ ∃ sample_data, ra_model signup_analysis = sort_fields sample_data
                   ∧ ra_endpoint_type signup_analysis = "users".
Proof.
  split; [apply signup_requirements_analysed|].
  destruct (requirements_come_from_the_document sample_world sample_fetch
              sample_json_error signup_endpoint _ _ _
              (signup_requirements_analysed {| script := []; ticks := 0 |}))
    as (r & doc & sample_data & info & _ & _ & _ & _ & Hmodel & Htype & _).
  exists sample_data. split; [exact Hmodel|exact Htype].
Defined.

(** ** Variations, builder and merge *)

Lemma variations_empty_iff_witness :
  (Some bio_spec = None
   ∨ ∃ info, Some bio_spec = Some info
             ∧ ((fs_type info = VStr "string"
                 ∧ is_substring "email" (lower "bio") = false
                 ∧ is_substring "name" (lower "bio") = false
                 ∧ is_substring "password" (lower "bio") = false
                 ∧ is_substring "phone" (lower "bio") = false)
                ∨ (fs_type info ≠ VStr "string" ∧ fs_type info ≠ VStr "integer"
                   ∧ fs_type info ≠ VStr "boolean")))
  ∧ (generate_field_variations sample_fake "bio" (Some bio_spec) [5; 3]).1 = inr [].
Proof.
  assert (Some bio_spec = None
          ∨ ∃ info, Some bio_spec = Some info
                    ∧ ((fs_type info = VStr "string"
                        ∧ is_substring "email" (lower "bio") = false
                        ∧ is_substring "name" (lower "bio") = false
                        ∧ is_substring "password" (lower "bio") = false
                        ∧ is_substring "phone" (lower "bio") = false)
                       ∨ (fs_type info ≠ VStr "string" ∧ fs_type info ≠ VStr "integer"
                          ∧ fs_type info ≠ VStr "boolean"))) as H.
  { right. exists bio_spec. split; [reflexivity|]. left. repeat split; run. }
  split; [exact H|].
  exact (proj2 (variations_empty_iff sample_fake "bio" (Some bio_spec) [5; 3]) H).
Defined.

Lemma combination_case_values_witness :
  ∃ case g',
    combination_case signup_body three_field_variations ["email"; "name"] [1; 2; 3]
    = (inr case, g')
    ∧ ∃ body, case !! "data" = Some (VDict body)
              ∧ dom body = dom signup_body ∪ list_to_set ["email"; "name"]
              ∧ body !! "bio" = signup_body !! "bio".
Proof.
  assert (match combination_case signup_body three_field_variations ["email"; "name"]
                  [1; 2; 3] with
          | (inr _, _) => True
          | _ => False
          end) as Hok by vm_cast_no_check I.
  destruct (combination_case signup_body three_field_variations ["email"; "name"]
              [1; 2; 3]) as [[e|case] g'] eqn:Hrun; [destruct Hok|].
  exists case, g'. split; [reflexivity|].
  destruct (combination_case_values _ _ _ _ _ _ Hrun) as (body & Hdata & Hdom & _ & Hframe).
  exists body. split; [exact Hdata|]. split; [exact Hdom|].
  apply Hframe. intros Hin.
  repeat (apply elem_of_cons in Hin as [Hin|Hin]; [discriminate Hin|]).
  by apply elem_of_nil in Hin.
Defined.

Lemma generated_cases_come_first_witness :
  ∃ cases,
    generate_test_cases sample_fake sample_str sample_json_loads signup_requirements
      (inr "[{}]") ["email"] signup_body [2; 7; 1; 8] = Some cases
    ∧ ∃ automated advisory,
        cases = automated ++ advisory
        ∧ Forall2 (fun scenario case =>
                     complete_case signup_body ["email"] scenario = inr case)
                  [VDict ∅] advisory.
Proof.
  assert (length <$> generate_test_cases sample_fake sample_str sample_json_loads
            signup_requirements (inr "[{}]") ["email"] signup_body [2; 7; 1; 8]
          = Some 9) as Hlen by run.
  destruct (generate_test_cases sample_fake sample_str sample_json_loads
              signup_requirements (inr "[{}]") ["email"] signup_body [2; 7; 1; 8])
    as [cases|] eqn:Hrun; [|discriminate Hlen].
  exists cases. split; [reflexivity|].
  destruct (generated_cases_come_first sample_fake sample_str sample_json_loads
              _ _ _ _ _ _ Hrun)
    as (fv & g1 & automated & g2 & content & gpt & advisory & _ & _ & Hreply & Hjson
        & Hcases & Hadvisory).
  exists automated, advisory. split; [exact Hcases|].
  injection Hreply as <-.
  assert (sample_json_loads "[{}]" = inr (VList [VDict ∅])) as Hparsed by run.
  rewrite Hparsed in Hjson. injection Hjson as <-. exact Hadvisory.
Defined.

Lemma malformed_scenarios_abort_witness :
  (wider_json_loads "{}" = inr (VDict ∅)
   ∧ generate_test_cases sample_fake sample_str wider_json_loads signup_requirements
       (inr "{}") ["email"] signup_body [2; 7; 1; 8] = None)
  ∧ (wider_json_loads "[1]" = inr (VList [VInt 1])
     ∧ generate_test_cases sample_fake sample_str wider_json_loads signup_requirements
         (inr "[1]") ["email"] signup_body [2; 7; 1; 8] = None).
Proof.
  assert (wider_json_loads "{}" = inr (VDict ∅)) as H1 by run.
  assert (wider_json_loads "[1]" = inr (VList [VInt 1])) as H2 by run.
  split; (split; [assumption|]).
  - apply (malformed_scenarios_abort sample_fake sample_str wider_json_loads
             _ _ _ _ _ _ H1).
    left. discriminate.
  - apply (malformed_scenarios_abort sample_fake sample_str wider_json_loads
             _ _ _ _ _ _ H2).
    right. exists [VInt 1], (VInt 1). split; [reflexivity|]. split; [left|discriminate].
Defined.

(** ** Executor, report and suite *)

Lemma unsupported_method_not_sent_witness :
  (<["method" := VStr "PATCH"]> (signup_case "patch" "amy@acme.com" 200) !! "method"
   = Some (VStr "PATCH")
   ∧ lower "PATCH" = "patch" ∧ isascii "PATCH" = true)
  ∧ (execute_case sample_str sample_world sample_send sample_now signup_endpoint
       (<["method" := VStr "PATCH"]> (signup_case "patch" "amy@acme.com" 200))
       {| script := [inr ok_response]; ticks := 4 |}).2
    = {| script := [inr ok_response]; ticks := 5 |}
  ∧ (execute_case sample_str sample_world sample_send sample_now signup_endpoint
       (<["method" := VStr "PATCH"]> (signup_case "patch" "amy@acme.com" 200))
       {| script := [inr ok_response]; ticks := 4 |}).1 !! "actual_status_code"
    = Some (VStr "Error")
  ∧ (execute_case sample_str sample_world sample_send sample_now signup_endpoint
       (<["method" := VStr "PATCH"]> (signup_case "patch" "amy@acme.com" 200))
       {| script := [inr ok_response]; ticks := 4 |}).1 !! "actual_response"
    = Some (VStr "Unsupported method: patch").
Proof.
  assert (<["method" := VStr "PATCH"]> (signup_case "patch" "amy@acme.com" 200)
          !! "method" = Some (VStr "PATCH")) as Hm by run.
  assert (<["method" := VStr "PATCH"]> (signup_case "patch" "amy@acme.com" 200)
          !! "data" = Some (VDict (<["email" := VStr "amy@acme.com"]> signup_body)))
    as Hd by run.
  assert (lower "PATCH" = "patch") as Hl by run.
  assert (isascii "PATCH" = true) as Hascii by run.
  split; [repeat split; assumption|].
  destruct (unsupported_method_not_sent sample_str sample_world sample_send sample_now
              signup_endpoint _ _ _ {| script := [inr ok_response]; ticks := 4 |} Hm Hd)
    as (Hw & Hs & _ & Htext); try (rewrite Hl; discriminate).
  split; [rewrite Hw; reflexivity|]. split; [exact Hs|].
  destruct (Htext Hascii) as [_ Hr]. rewrite Hr, Hl. reflexivity.
Defined.

Lemma three_cases_named :
  Forall (fun case : gmap string value =>
            is_Some (case !! "name") ∧ is_Some (case !! "expected_status_code"))
    [signup_case "first" "amy@example.org" 200;
     signup_case "second" "amy@acme.com" 200;
     signup_case "third" "amy@gmail.com" 400].
Proof.
  constructor; [|constructor; [|constructor; [|constructor]]].
  - split; [exists (VStr "first")|exists (VInt 200)]; run.
  - split; [exists (VStr "second")|exists (VInt 200)]; run.
  - split; [exists (VStr "third")|exists (VInt 400)]; run.
Defined.

Lemma executed_suite_is_reported_witness :
  Forall (fun case : gmap string value =>
            is_Some (case !! "name") ∧ is_Some (case !! "expected_status_code"))
    [signup_case "first" "amy@example.org" 200;
     signup_case "second" "amy@acme.com" 200;
     signup_case "third" "amy@gmail.com" 400]
  ∧ ∃ rep,
      generate_test_report sample_world sample_now sample_format_rate
        (execute_test_cases sample_str sample_world sample_send sample_now
           signup_endpoint
           [signup_case "first" "amy@example.org" 200;
            signup_case "second" "amy@acme.com" 200;
            signup_case "third" "amy@gmail.com" 400]
           {| script := [inr ok_response; inl refused; inr ok_response]; ticks := 0 |}).1
        {| script := []; ticks := 3 |} = inr rep
      ∧ total_tests rep = 3.
Proof.
  split; [exact three_cases_named|].
  destruct (executed_suite_is_reported sample_str sample_world sample_send sample_now
              sample_format_rate signup_endpoint _
              {| script := [inr ok_response; inl refused; inr ok_response]; ticks := 0 |}
              {| script := []; ticks := 3 |} three_cases_named)
    as (rep & Hrun & _ & Htotal & _).
  exists rep. split; [exact Hrun|exact Htotal].
Defined.

Lemma missing_expected_status_breaks_report_witness :
  (delete "expected_status_code" (signup_case "second" "amy@acme.com" 200)
   ∈ [signup_case "first" "amy@example.org" 200;
      delete "expected_status_code" (signup_case "second" "amy@acme.com" 200)]
   ∧ delete "expected_status_code" (signup_case "second" "amy@acme.com" 200)
     !! "expected_status_code" = None)
  ∧ ∃ e,
      generate_test_report sample_world sample_now sample_format_rate
        (execute_test_cases sample_str sample_world sample_send sample_now
           signup_endpoint
           [signup_case "first" "amy@example.org" 200;
            delete "expected_status_code" (signup_case "second" "amy@acme.com" 200)]
           {| script := [inr ok_response; inr ok_response]; ticks := 0 |}).1
        {| script := []; ticks := 2 |} = inl e
      ∧ exn_type e = KeyError.
Proof.
  assert (delete "expected_status_code" (signup_case "second" "amy@acme.com" 200)
          ∈ [signup_case "first" "amy@example.org" 200;
             delete "expected_status_code" (signup_case "second" "amy@acme.com" 200)])
    as Hin by (right; left).
  assert (delete "expected_status_code" (signup_case "second" "amy@acme.com" 200)
          !! "expected_status_code" = None) as Hnone by apply lookup_delete_eq.
  split; [split; assumption|].
  exact (missing_expected_status_breaks_report sample_str sample_world sample_send
           sample_now sample_format_rate signup_endpoint _ _
           {| script := [inr ok_response; inr ok_response]; ticks := 0 |}
           {| script := []; ticks := 2 |} Hin Hnone).
Defined.

Lemma suite_report_covers_every_case_witness :
  ∃ selected_fields default_body requirements validation_rules rep w',
    run_complete_test_suite sample_fake sample_str sample_json_loads sample_world
      sample_send sample_now sample_format_rate sample_fetch sample_json_error
      signup_endpoint (Some ["email"]) (inr "[{}]") (inr "[]") [2; 7; 1; 8]
      {| script := []; ticks := 0 |}
    = (inr (SuiteReport selected_fields default_body requirements validation_rules rep),
       w')
    ∧ selected_fields = ["email"]
    ∧ truthy validation_rules = true
    ∧ ∃ test_cases : list (gmap string value),
        test_cases ≠ [] ∧ total_tests rep = length test_cases.
Proof.
  assert (match run_complete_test_suite sample_fake sample_str sample_json_loads
                  sample_world sample_send sample_now sample_format_rate sample_fetch
                  sample_json_error signup_endpoint (Some ["email"]) (inr "[{}]")
                  (inr "[]") [2; 7; 1; 8] {| script := []; ticks := 0 |} with
          | (inr (SuiteReport _ _ _ _ _), _) => True
          | _ => False
          end) as Hok by vm_cast_no_check I.
  destruct (run_complete_test_suite sample_fake sample_str sample_json_loads
              sample_world sample_send sample_now sample_format_rate sample_fetch
              sample_json_error signup_endpoint (Some ["email"]) (inr "[{}]")
              (inr "[]") [2; 7; 1; 8] {| script := []; ticks := 0 |})
    as [[e|[msg|sel body ra rules rep]] w'] eqn:Hrun; try destruct Hok.
  exists sel, body, ra, rules, rep, w'. split; [reflexivity|].
  destruct (suite_report_covers_every_case _ _ _ _ _ _ _ _ _ _ _ _ _ _ _ _ _ _ _ _ _ Hrun)
    as (w1 & cases & _ & Hsel & _ & _ & _ & Htruthy & _ & Hne & _ & Htotal).
  split; [by injection Hsel|]. split; [exact Htruthy|].
  exists cases. split; [exact Hne|exact Htotal].
Defined.

Lemma suite_stops_before_execution_witness :
  analyze_endpoint_requirements sample_world sample_fetch sample_json_error
    signup_endpoint {| script := []; ticks := 0 |}
  = (Some signup_analysis, {| script := []; ticks := 0 |})
  ∧ run_complete_test_suite sample_fake sample_str sample_json_loads sample_world
      sample_send sample_now sample_format_rate sample_fetch sample_json_error
      signup_endpoint (Some ["email"]) (inl refused) (inr "[]") [2; 7; 1; 8]
      {| script := []; ticks := 0 |}
    = (inl refused, {| script := []; ticks := 0 |})
  ∧ run_complete_test_suite sample_fake sample_str sample_json_loads sample_world
      sample_send sample_now sample_format_rate sample_fetch sample_json_error
      signup_endpoint (Some ["email"]) (inr "[]") (inr "[]") [2; 7; 1; 8]
      {| script := []; ticks := 0 |}
    = (inr (SuiteMessage "Failed to generate validation rules"),
       {| script := []; ticks := 0 |})
  ∧ run_complete_test_suite sample_fake sample_str sample_json_loads sample_world
      sample_send sample_now sample_format_rate sample_fetch sample_json_error
      signup_endpoint (Some ["email"]) (inr "[{}]") (inr "no scenarios") [2; 7; 1; 8]
      {| script := []; ticks := 0 |}
    = (inr (SuiteMessage "Failed to generate test cases"),
       {| script := []; ticks := 0 |}).
Proof.
  pose proof (signup_requirements_analysed {| script := []; ticks := 0 |}) as Hreq.
  split; [exact Hreq|].
  split; [|split].
  - exact (proj1 (suite_stops_before_execution sample_fake sample_str sample_json_loads
                    sample_world sample_send sample_now sample_format_rate sample_fetch
                    sample_json_error signup_endpoint "email" [] (inl refused) (inr "[]")
                    [2; 7; 1; 8] _ _ _ Hreq) refused eq_refl).
  - apply (proj1 (proj2 (suite_stops_before_execution sample_fake sample_str
                           sample_json_loads sample_world sample_send sample_now
                           sample_format_rate sample_fetch sample_json_error
                           signup_endpoint "email" [] (inr "[]") (inr "[]")
                           [2; 7; 1; 8] _ _ _ Hreq)) "[]" eq_refl).
    right. exists (VList []). split; [run|reflexivity].
  - apply (proj2 (proj2 (suite_stops_before_execution sample_fake sample_str
                           sample_json_loads sample_world sample_send sample_now
                           sample_format_rate sample_fetch sample_json_error
                           signup_endpoint "email" [] (inr "[{}]") (inr "no scenarios")
                           [2; 7; 1; 8] _ _ _ Hreq)) "[{}]" (VList [VDict ∅]) eq_refl).
    + run.
    + reflexivity.
    + run.
Defined.

Lemma generated_suite_size_witness :
  (∀ field, field ∈ ["email"; "name"; "password"] →
     ∃ variations, three_field_variations !! field = Some variations ∧ variations ≠ [])
  ∧ ∃ automated g',
      generate_combination_test_cases sample_str signup_body
        ["email"; "name"; "password"] three_field_variations [4; 1; 5; 9; 2; 6]
      = (inr automated, g')
      ∧ length automated = 20.
Proof.
  split; [exact three_fields_have_variations|].
  destruct (generated_suite_size sample_str signup_body ["email"; "name"; "password"]
              three_field_variations [4; 1; 5; 9; 2; 6] three_fields_have_variations)
    as (automated & g' & Hrun & Hlen).
  exists automated, g'. split; [exact Hrun|]. rewrite Hlen. run.
Defined.
